(** * Gravity simulation: a shallow embedding of [gravity_sim.cpp]

    The development follows the C++ source function by function.  C++
    [float] and [double] values are IEEE 754 binary32 and binary64 numbers,
    taken from the Standard Library's executable specification
    ([SpecFloat]); every arithmetic conversion the C++ expressions perform
    (float to double, double to float, int to float) is written out.

    The program is built with g++ (see [tasks.json]): the unqualified calls
    [pow] and [sqrt] are the C functions on [double], [std::pow] on two
    floats is the [float] overload.  The mathematical library is not part of
    the repository: [pow], [powf], [sin], [cos] and the overload chosen for
    the unqualified [abs] are parameters of the model, and a reference
    instance (module [LibM]) is used where a concrete run is evaluated.

    Rendering calls (uniform uploads, draw calls) have no effect on the
    bodies, the pause flag or the grid and are left out; so is the motion
    of the camera by the keyboard and the wheel.  The mouse handler of the
    camera and the grid of the variant [Gravity Simulation 3D] follow the
    simulation. *)

From Stdlib Require Import ZArith Bool List Lia Reals Lra.
From Stdlib Require Import Floats.FloatClass Floats.SpecFloat.
From stdpp Require Import base list.

(** ** IEEE 754 arithmetic *)

(** binary32, the C++ [float] *)
Module Float.
Definition prec : Z := 24.
Definition emax : Z := 128.
Definition add := SFadd prec emax.
Definition sub := SFsub prec emax.
Definition mul := SFmul prec emax.
Definition div := SFdiv prec emax.
Definition sqrt := SFsqrt prec emax.
Definition opp := SFopp.
Definition abs := SFabs.
Definition ltb := SFltb.
Definition leb := SFleb.
(** [x > y] *)
Definition gtb (x y : spec_float) := SFltb y x.
Definition valid := valid_binary prec emax.
(** Conversion of an integer, rounding to nearest even. *)
Definition of_Z (n : Z) := binary_normalize prec emax n 0 false.
(** The decimal literal [n/d], correctly rounded. *)
Definition of_dec (n d : positive) :=
  SFdiv prec emax (S754_finite false n 0) (S754_finite false d 0).
(** Conversion of a number of another binary format into this one. *)
Definition round (x : spec_float) :=
  match x with
  | S754_finite s m e => binary_normalize prec emax (cond_Zopp s (Zpos m)) e s
  | _ => x
  end.
Definition zero := S754_zero false.
Definition one := of_Z 1.
End Float.

(** binary64, the C++ [double] *)
Module Double.
Definition prec : Z := 53.
Definition emax : Z := 1024.
Definition add := SFadd prec emax.
Definition sub := SFsub prec emax.
Definition mul := SFmul prec emax.
Definition div := SFdiv prec emax.
Definition sqrt := SFsqrt prec emax.
Definition opp := SFopp.
Definition abs := SFabs.
Definition ltb := SFltb.
Definition leb := SFleb.
(** [x > y] *)
Definition gtb (x y : spec_float) := SFltb y x.
Definition valid := valid_binary prec emax.
(** Conversion of an integer, rounding to nearest even. *)
Definition of_Z (n : Z) := binary_normalize prec emax n 0 false.
(** The decimal literal [n/d], correctly rounded. *)
Definition of_dec (n d : positive) :=
  SFdiv prec emax (S754_finite false n 0) (S754_finite false d 0).
(** Conversion of a number of another binary format into this one. *)
Definition round (x : spec_float) :=
  match x with
  | S754_finite s m e => binary_normalize prec emax (cond_Zopp s (Zpos m)) e s
  | _ => x
  end.
Definition zero := S754_zero false.
Definition one := of_Z 1.
End Double.

(** The real number a float stands for: [m * 2^e] for a finite float, 0 for
    the others. *)
Definition bpow (e : Z) : R := powerRZ 2 e.
Definition F2R (m e : Z) : R := (IZR m * bpow e)%R.
Definition SF2R (x : spec_float) : R :=
  match x with
  | S754_finite s m e => F2R (cond_Zopp s (Zpos m)) e
  | _ => 0%R
  end.

(** [x] is plus infinity or a positive finite float of value at least [r] *)
Definition at_least (x : spec_float) (r : R) : Prop :=
  match x with
  | S754_infinity false => True
  | S754_finite false m e => (r <= F2R (Zpos m) e)%R
  | _ => False
  end.

(** a positive normal number of the format *)
Definition positive_normal (prec emax : Z) (x : spec_float) : bool :=
  valid_binary prec emax x &&
  match SFclassify prec x with PNormal => true | _ => false end.

Abbreviation float := spec_float (only parsing).
Abbreviation double := spec_float (only parsing).

(** ** A reference mathematical library

    [pow], [sin] and [cos] computed in fixed point with [P] fractional bits
    and rounded to nearest: a model of a libm whose results are correctly
    rounded.  *)

Module LibM.
Local Open Scope Z_scope.

Definition P : Z := 96.
Definition fx_one : Z := 2 ^ P.
Definition fx_mul (a b : Z) : Z := Z.shiftr (a * b) P.

(** [sum_{k < n} u^(2k+1) / (2k+1)], the series of [atanh u]
    ([sgn = 1]) or of [atan u] ([sgn = -1]). *)
Fixpoint odd_series (n : nat) (sgn k pw u2 acc : Z) : Z :=
  match n with
  | O => acc
  | S n' => odd_series n' sgn (k + 2) (sgn * fx_mul pw u2) u2 (acc + pw / k)
  end.

Definition atanh_fx (u : Z) : Z := odd_series 34 1 1 u (fx_mul u u) 0.
Definition atan_fx (u : Z) : Z := odd_series 34 (-1) 1 u (fx_mul u u) 0.

Definition ln2_fx : Z := Eval vm_compute in 2 * atanh_fx (fx_one / 3).
(** Machin: pi = 16 atan(1/5) - 4 atan(1/239). *)
Definition pi_fx : Z :=
  Eval vm_compute in 16 * atan_fx (fx_one / 5) - 4 * atan_fx (fx_one / 239).

(** [ln (m * 2^e)] *)
Definition ln_fx (m : positive) (e : Z) : Z :=
  let d := Z.log2 (Zpos m) in
  let t := 2 ^ d in
  let u := Z.shiftl (Zpos m - t) P / (Zpos m + t) in
  (d + e) * ln2_fx + 2 * atanh_fx u.

(** [sum_{n < fuel} r^n / n!] *)
Fixpoint exp_series (fuel : nat) (n term r acc : Z) : Z :=
  match fuel with
  | O => acc
  | S f => exp_series f (n + 1) (fx_mul term r / (n + 1)) r (acc + term)
  end.

(** [exp z] as a mantissa and a binary exponent *)
Definition exp_fx (z : Z) : Z * Z :=
  let k := (2 * z + ln2_fx) / (2 * ln2_fx) in
  let r := z - k * ln2_fx in
  (exp_series 32 0 fx_one r 0, k - P).

Definition is_integer (m : positive) (e : Z) : bool :=
  (0 <=? e) || (Zpos m mod 2 ^ (- e) =? 0).
Definition is_odd_integer (m : positive) (e : Z) : bool :=
  is_integer m e && Z.odd (if 0 <=? e then Z.shiftl (Zpos m) e else Zpos m / 2 ^ (- e)).

(** [|x|^y] for finite non-zero [x] and [y] *)
Definition pow_pos (prec emax : Z) (s : bool) (mx : positive) (ex : Z)
    (sy : bool) (my : positive) (ey : Z) : spec_float :=
  let l := ln_fx mx ex in
  let z := cond_Zopp sy (if 0 <=? ey then Z.shiftl (Zpos my * l) ey
                         else Zpos my * l / 2 ^ (- ey)) in
  if Z.shiftl 4096 P <? z then S754_infinity s
  else if z <? - Z.shiftl 4096 P then S754_zero s
  else if z =? 0 then binary_normalize prec emax (cond_Zopp s 1) 0 s
  else let '(m, e) := exp_fx z in binary_normalize prec emax (cond_Zopp s m) e s.

Definition pow_gen (prec emax : Z) (x y : spec_float) : spec_float :=
  let one := binary_normalize prec emax 1 0 false in
  match x, y with
  | _, S754_zero _ => one
  | S754_nan, _ | _, S754_nan => S754_nan
  | S754_finite s mx ex, S754_finite sy my ey =>
      if s then
        if is_integer my ey then pow_pos prec emax (is_odd_integer my ey) mx ex sy my ey
        else S754_nan
      else pow_pos prec emax false mx ex sy my ey
  | S754_zero s, S754_finite sy my ey =>
      let s' := s && is_odd_integer my ey in
      if sy then S754_infinity s' else S754_zero s'
  | S754_infinity s, S754_finite sy my ey =>
      let s' := s && is_odd_integer my ey in
      if sy then S754_zero s' else S754_infinity s'
  | S754_zero _, S754_infinity sy =>
      if sy then S754_infinity false else S754_zero false
  | S754_infinity _, S754_infinity sy =>
      if sy then S754_zero false else S754_infinity false
  | S754_finite _ mx ex, S754_infinity sy =>
      match SFcompare (S754_finite false mx ex) one with
      | Some Eq => one
      | Some Gt => if sy then S754_zero false else S754_infinity false
      | _ => if sy then S754_infinity false else S754_zero false
      end
  end.

(** [double pow(double, double)] *)
Definition pow : double -> double -> double := pow_gen Double.prec Double.emax.
(** [float std::pow(float, float)] *)
Definition powf : float -> float -> float := pow_gen Float.prec Float.emax.

(** [sum_{n < fuel} (-1)^n r^(k+2n) / (k+2n)!], started at [term = r^k/k!] *)
Fixpoint trig_series (fuel : nat) (k term r2 acc : Z) : Z :=
  match fuel with
  | O => acc
  | S f => trig_series f (k + 2) (- (fx_mul term r2 / ((k + 1) * (k + 2)))) r2 (acc + term)
  end.

(** the argument reduced to [[-pi, pi)], in fixed point *)
Definition reduce (s : bool) (m : positive) (e : Z) : Z :=
  let v := cond_Zopp s (if 0 <=? P + e then Z.shiftl (Zpos m) (P + e)
                        else Z.shiftr (Zpos m) (- (P + e))) in
  (v + pi_fx) mod (2 * pi_fx) - pi_fx.

Definition trig (is_sin : bool) (x : double) : double :=
  match x with
  | S754_zero s => if is_sin then x else Double.one
  | S754_finite s m e =>
      if 1024 <? e then S754_nan
      else
        let r := reduce s m e in
        let v := if is_sin then trig_series 24 1 r (fx_mul r r) 0
                 else trig_series 24 0 fx_one (fx_mul r r) 0 in
        binary_normalize Double.prec Double.emax v (- P) false
  | _ => S754_nan
  end.

(** [double sin(double)], [double cos(double)] *)
Definition sin : double -> double := trig true.
Definition cos : double -> double := trig false.

(** [int abs(int)] on a [float] argument: the argument is truncated to
    [int] and the result converted back for the float addition.  Outside
    the range of [int] the conversion is undefined; the value x86 produces
    ([INT_MIN]) is used.  The code negates the result while it is still an
    [int] ([-abs(verticalShift)]), and [-abs(INT_MIN)] wraps around to
    [INT_MIN]: the magnitude returned for [INT_MIN] is [2^31], so that
    its negation is the value the code converts. *)
Definition trunc (x : float) : Z :=
  match x with
  | S754_finite s m e =>
      let v := if 0 <=? e then (if e <? 64 then Z.shiftl (Zpos m) e else 2 ^ 31)
               else Z.shiftr (Zpos m) (- e) in
      if v <? 2 ^ 31 then cond_Zopp s v else - 2 ^ 31
  | S754_zero _ => 0
  | _ => - 2 ^ 31
  end.
Definition abs_int (x : float) : float := Float.of_Z (Z.abs (trunc x)).
(** [float std::abs(float)] *)
Definition abs_float (x : float) : float := Float.abs x.
End LibM.

(** ** Vectors ([glm::vec3]) *)

Record vec3 := Vec3 { vx : float; vy : float; vz : float }.

Definition vec3_sub (a b : vec3) : vec3 :=
  Vec3 (Float.sub (vx a) (vx b)) (Float.sub (vy a) (vy b)) (Float.sub (vz a) (vz b)).

(** [v *= k] *)
Definition vec3_scale (k : float) (v : vec3) : vec3 :=
  Vec3 (Float.mul (vx v) k) (Float.mul (vy v) k) (Float.mul (vz v) k).

(** [glm::length]: [sqrt(dot(v, v))], the dot product summed left to right *)
Definition vec3_length (v : vec3) : float :=
  Float.sqrt (Float.add (Float.add (Float.mul (vx v) (vx v)) (Float.mul (vy v) (vy v)))
                        (Float.mul (vz v) (vz v))).

Definition vec3_zero : vec3 := Vec3 Float.zero Float.zero Float.zero.

(** ** Constants *)

(** [const double G = 6.6743e-11] *)
Definition G : double := Double.of_dec 66743 1000000000000000.
(** [const float c = 299792458.0] *)
Definition c : float := Float.of_Z 299792458.
(** [float initMass = float(pow(10, 22))]; 10^22 is a [double] *)
Definition initMass : float := Float.round (Double.of_Z (10 ^ 22)).
(** [float sizeRatio = 30000.0f] *)
Definition sizeRatio : float := Float.of_Z 30000.
(** the literals [3.14159265359] and [3.14159265359f] *)
Definition pi_double : double := Double.of_dec 314159265359 100000000000.
Definition pi_float : float := Float.of_dec 314159265359 100000000000.
(** [glm::pi<float>()] *)
Definition glm_pi : float := Float.of_dec 3141592653589793238 1000000000000000000.
(** [1.0f/3.0f] and [1.0f/2.0f] *)
Definition one_third : float := Float.div (Float.of_Z 1) (Float.of_Z 3).
Definition one_half : float := Float.div (Float.of_Z 1) (Float.of_Z 2).
(** [2^-23], about 0.12 microseconds when read as a frame time in seconds *)
Definition min_step : float := S754_finite false 8388608 (-46).
(** the damping factor [-0.2f] returned by [CheckCollision] *)
Definition damping : float := Float.opp (Float.of_dec 2 10).

(** ** Bodies *)

(** [class Object].  [vbo] is the content of the vertex buffer [VBO], the
    cached mesh; [color], [target], [LastPos] and the buffer handles play no
    part in the simulation. *)
Record Object := mkObject {
  position : vec3;
  velocity : vec3;
  Initalizing : bool;
  Launched : bool;
  mass : float;
  density : float;
  radius : float;
  glow : bool;
  vbo : list float
}.

Definition set_position (p : vec3) (o : Object) : Object :=
  mkObject p (velocity o) (Initalizing o) (Launched o) (mass o) (density o) (radius o) (glow o) (vbo o).
Definition set_velocity (v : vec3) (o : Object) : Object :=
  mkObject (position o) v (Initalizing o) (Launched o) (mass o) (density o) (radius o) (glow o) (vbo o).
Definition set_Initalizing (b : bool) (o : Object) : Object :=
  mkObject (position o) (velocity o) b (Launched o) (mass o) (density o) (radius o) (glow o) (vbo o).
Definition set_Launched (b : bool) (o : Object) : Object :=
  mkObject (position o) (velocity o) (Initalizing o) b (mass o) (density o) (radius o) (glow o) (vbo o).
Definition set_mass (m : float) (o : Object) : Object :=
  mkObject (position o) (velocity o) (Initalizing o) (Launched o) m (density o) (radius o) (glow o) (vbo o).
Definition set_radius (r : float) (o : Object) : Object :=
  mkObject (position o) (velocity o) (Initalizing o) (Launched o) (mass o) (density o) r (glow o) (vbo o).
Definition set_vbo (b : list float) (o : Object) : Object :=
  mkObject (position o) (velocity o) (Initalizing o) (Launched o) (mass o) (density o) (radius o) (glow o) b.

(** ** Input events (GLFW) *)

Inductive Key :=
  KEY_W | KEY_A | KEY_S | KEY_D | KEY_SPACE | KEY_LEFT_SHIFT | KEY_K | KEY_Q
| KEY_UP | KEY_DOWN | KEY_LEFT | KEY_RIGHT | KEY_OTHER.

Inductive Action := RELEASE | PRESS | REPEAT.

Inductive MouseButton := MOUSE_BUTTON_LEFT | MOUSE_BUTTON_RIGHT | MOUSE_BUTTON_OTHER.

Definition Key_eqb (a b : Key) : bool :=
  match a, b with
  | KEY_W, KEY_W | KEY_A, KEY_A | KEY_S, KEY_S | KEY_D, KEY_D
  | KEY_SPACE, KEY_SPACE | KEY_LEFT_SHIFT, KEY_LEFT_SHIFT | KEY_K, KEY_K
  | KEY_Q, KEY_Q | KEY_UP, KEY_UP | KEY_DOWN, KEY_DOWN | KEY_LEFT, KEY_LEFT
  | KEY_RIGHT, KEY_RIGHT | KEY_OTHER, KEY_OTHER => true
  | _, _ => false
  end.

(** [action == GLFW_PRESS || action == GLFW_REPEAT] *)
Definition press_or_repeat (a : Action) : bool :=
  match a with RELEASE => false | _ => true end.

(** ** The global simulation state

    [objs] is the [std::vector<Object>]; [gridVertices] is the local of
    [main] that lives across frames. *)
Record Sim := mkSim {
  running : bool;
  pause : bool;
  deltaTime : float;
  lastFrame : float;
  objs : list Object;
  gridVertices : list float
}.

Definition set_objs (l : list Object) (s : Sim) : Sim :=
  mkSim (running s) (pause s) (deltaTime s) (lastFrame s) l (gridVertices s).
Definition set_pause (b : bool) (s : Sim) : Sim :=
  mkSim (running s) b (deltaTime s) (lastFrame s) (objs s) (gridVertices s).
Definition set_running (b : bool) (s : Sim) : Sim :=
  mkSim b (pause s) (deltaTime s) (lastFrame s) (objs s) (gridVertices s).

(** ** Indexing a [std::vector]

    [size_t] is 64 bits wide: [objs.size() - 1] wraps around on the empty
    vector.  [operator[]] outside [0 .. size) is undefined behaviour,
    reported as [None]. *)
Definition size_t_sub (a b : Z) : Z := ((a - b) mod 2 ^ 64)%Z.
Definition last_index {A} (l : list A) : Z := size_t_sub (Z.of_nat (length l)) 1.
Definition vec_get {A} (l : list A) (i : Z) : option A :=
  if (Z.of_nat (length l) <=? i)%Z then None else l !! Z.to_nat i.
Definition vec_update {A} (l : list A) (i : Z) (f : A -> A) : option (list A) :=
  match vec_get l i with
  | Some x => Some (<[Z.to_nat i := f x]> l)
  | None => None
  end.

(** ** The simulation *)

Section Simulation.
(** The mathematical library: [::pow], [std::pow(float, float)], [::sin],
    [::cos], and [abs] applied to a [float] (its result converted back to
    [float]). *)
Variable pow : double -> double -> double.
Variable powf : float -> float -> float.
Variable sin : double -> double.
Variable cos : double -> double.
Variable abs : float -> float.

(** *** [class Object] *)

(** [pow(((3 * mass/density)/(4 * 3.14159265359)), (1.0f/3.0f)) / scale]:
    the quotient [3 * mass / density] is a [float], the rest is computed in
    [double] and the result stored in a [float]. *)
Definition radius_of (scale : double) (m d : float) : float :=
  Float.round
    (Double.div
       (pow (Double.div (Double.round (Float.div (Float.mul (Float.of_Z 3) m) d))
                        (Double.mul (Double.of_Z 4) pi_double))
            (Double.round one_third))
       scale).

(** [pow((3 * mass / density) / (4 * 3.14159265359f), 1.0f/3.0f) / sizeRatio]
    of the growth step: the argument of [pow] is a [float]. *)
Definition radius_grow (m d : float) : float :=
  Float.round
    (Double.div
       (pow (Double.round (Float.div (Float.div (Float.mul (Float.of_Z 3) m) d)
                                     (Float.mul (Float.of_Z 4) pi_float)))
            (Double.round one_third))
       (Double.round sizeRatio)).

(** [sphericalToCartesian(r, theta, phi)] *)
Definition sphericalToCartesian (r theta phi : float) : vec3 :=
  let st := sin (Double.round theta) in
  let ct := cos (Double.round theta) in
  let sp := sin (Double.round phi) in
  let cp := cos (Double.round phi) in
  let rd := Double.round r in
  Vec3 (Float.round (Double.mul (Double.mul rd st) cp))
       (Float.round (Double.mul rd ct))
       (Float.round (Double.mul (Double.mul rd st) sp)).

Definition vec3_floats (v : vec3) : list float := [vx v; vy v; vz v].

(** [Object::Draw]: the float counters [i = 0 .. stacks] and
    [j = 0 .. sectors - 1] hold integers exactly. *)
Definition Draw (r : float) : list float :=
  let stacks := Float.of_Z 10 in
  let sectors := Float.of_Z 10 in
  flat_map (fun i : nat =>
    let fi := Float.of_Z (Z.of_nat i) in
    let theta1 := Float.mul (Float.div fi stacks) glm_pi in
    let theta2 := Float.mul (Float.div (Float.add fi (Float.of_Z 1)) stacks) glm_pi in
    flat_map (fun j : nat =>
      let fj := Float.of_Z (Z.of_nat j) in
      let phi1 := Float.mul (Float.mul (Float.div fj sectors) (Float.of_Z 2)) glm_pi in
      let phi2 := Float.mul (Float.mul (Float.div (Float.add fj (Float.of_Z 1)) sectors)
                                       (Float.of_Z 2)) glm_pi in
      let v1 := sphericalToCartesian r theta1 phi1 in
      let v2 := sphericalToCartesian r theta1 phi2 in
      let v3 := sphericalToCartesian r theta2 phi1 in
      let v4 := sphericalToCartesian r theta2 phi2 in
      vec3_floats v1 ++ vec3_floats v2 ++ vec3_floats v3
        ++ vec3_floats v2 ++ vec3_floats v4 ++ vec3_floats v3)
      (seq 0 10))
    (seq 0 11).

(** [Object::UpdateVertices]: regenerate the mesh from the current radius *)
Definition UpdateVertices (o : Object) : Object := set_vbo (Draw (radius o)) o.

(** [Object::Object] *)
Definition new_Object (initPosition initVelocity : vec3) (m d : float) (Glow : bool) : Object :=
  let r := radius_of (Double.round sizeRatio) m d in
  mkObject initPosition initVelocity false false m d r Glow (Draw r).

(** [Object::UpdatePos] *)
Definition UpdatePos (o : Object) : Object :=
  let p := position o in
  let v := velocity o in
  let p' := Vec3 (Float.add (vx p) (Float.div (vx v) (Float.of_Z 94)))
                 (Float.add (vy p) (Float.div (vy v) (Float.of_Z 94)))
                 (Float.add (vz p) (Float.div (vz v) (Float.of_Z 94))) in
  set_radius (radius_of (Double.round sizeRatio) (mass o) (density o)) (set_position p' o).

Definition GetPos (o : Object) : vec3 := position o.

(** [Object::accelerate] *)
Definition accelerate (x y z : float) (o : Object) : Object :=
  let v := velocity o in
  set_velocity (Vec3 (Float.add (vx v) (Float.div x (Float.of_Z 96)))
                     (Float.add (vy v) (Float.div y (Float.of_Z 96)))
                     (Float.add (vz v) (Float.div z (Float.of_Z 96)))) o.

(** the [distance] computed by [CheckCollision] *)
Definition collision_distance (this other : Object) : float :=
  let dx := Float.sub (vx (position other)) (vx (position this)) in
  let dy := Float.sub (vy (position other)) (vy (position this)) in
  let dz := Float.sub (vz (position other)) (vz (position this)) in
  powf (Float.add (Float.add (Float.mul dx dx) (Float.mul dy dy)) (Float.mul dz dz)) one_half.

(** [other.radius + this->radius > distance] *)
Definition overlapping (this other : Object) : bool :=
  Float.gtb (Float.add (radius other) (radius this)) (collision_distance this other).

(** [Object::CheckCollision] *)
Definition CheckCollision (this other : Object) : float :=
  if overlapping this other then damping else Float.of_Z 1.

(** *** The frame loop of [main] *)

(** the [distance] of the force computation:
    [sqrt(dx * dx + dy * dy + dz * dz)], the C [sqrt] on [double] *)
Definition separation (obj obj2 : Object) : float :=
  let dx := Float.sub (vx (GetPos obj2)) (vx (GetPos obj)) in
  let dy := Float.sub (vy (GetPos obj2)) (vy (GetPos obj)) in
  let dz := Float.sub (vz (GetPos obj2)) (vz (GetPos obj)) in
  Float.round (Double.sqrt (Double.round
    (Float.add (Float.add (Float.mul dx dx) (Float.mul dy dy)) (Float.mul dz dz)))).

(** the acceleration vector [acc] of [obj] towards [obj2], computed inside
    the guard [distance > 0] *)
Definition acceleration (obj obj2 : Object) : vec3 :=
  let dx := Float.sub (vx (GetPos obj2)) (vx (GetPos obj)) in
  let dy := Float.sub (vy (GetPos obj2)) (vy (GetPos obj)) in
  let dz := Float.sub (vz (GetPos obj2)) (vz (GetPos obj)) in
  let distance := separation obj obj2 in
  let direction := Vec3 (Float.div dx distance) (Float.div dy distance) (Float.div dz distance) in
  let distance := Float.mul distance (Float.of_Z 1000) in
  let Gforce := Double.div
                  (Double.mul (Double.mul G (Double.round (mass obj))) (Double.round (mass obj2)))
                  (Double.round (Float.mul distance distance)) in
  let acc1 := Float.round (Double.div Gforce (Double.round (mass obj))) in
  Vec3 (Float.mul (vx direction) acc1) (Float.mul (vy direction) acc1)
       (Float.mul (vz direction) acc1).

(** [if(!pause) obj.accelerate(acc[0], acc[1], acc[2]);] *)
Definition kick (paused : bool) (obj obj2 : Object) : Object :=
  if paused then obj
  else let a := acceleration obj obj2 in accelerate (vx a) (vy a) (vz a) obj.

(** [obj.velocity *= obj.CheckCollision(obj2);] *)
Definition damp (obj obj2 : Object) : Object :=
  set_velocity (vec3_scale (CheckCollision obj obj2) (velocity obj)) obj.

(** the body of the inner loop for one admitted pair *)
Definition pairStep (paused : bool) (obj obj2 : Object) : Object :=
  if Float.gtb (separation obj obj2) Float.zero
  then damp (kick paused obj obj2) obj2
  else obj.

(** [&obj2 != &obj && !obj.Initalizing && !obj2.Initalizing] *)
Definition admitted (i j : nat) (obj obj2 : Object) : bool :=
  negb (Nat.eqb j i) && negb (Initalizing obj) && negb (Initalizing obj2).

(** one iteration of [for(auto& obj2 : objs)] with [obj = objs[i]],
    [obj2 = objs[j]] *)
Definition innerStep (paused : bool) (i : nat) (v : list Object) (j : nat) : list Object :=
  match v !! i, v !! j with
  | Some obj, Some obj2 =>
      if admitted i j obj obj2 then <[i := pairStep paused obj obj2]> v else v
  | _, _ => v
  end.

(** [if(obj.Initalizing){ obj.radius = ... / 1000000; obj.UpdateVertices(); }] *)
Definition initRadius (obj : Object) : Object :=
  if Initalizing obj
  then UpdateVertices (set_radius (radius_of (Double.of_Z 1000000) (mass obj) (density obj)) obj)
  else obj.

(** [if(!pause){ obj.UpdatePos(); }] *)
Definition move (paused : bool) (obj : Object) : Object :=
  if paused then obj else UpdatePos obj.

(** one iteration of [for(auto& obj : objs)] with [obj = objs[i]] *)
Definition bodyStep (paused : bool) (v : list Object) (i : nat) : list Object :=
  let v1 := foldl (innerStep paused i) v (seq 0 (length v)) in
  alter (fun obj => move paused (initRadius obj)) i v1.

(** the whole loop over the bodies *)
Definition physics (paused : bool) (v : list Object) : list Object :=
  foldl (bodyStep paused) v (seq 0 (length v)).

(** [objs.back().mass *= 1.0 + 1.0 * deltaTime;] followed by the
    recomputation of the radius and of the mesh *)
Definition grown_mass (dt m : float) : float :=
  Float.round (Double.mul (Double.round m)
                 (Double.add (Double.of_Z 1) (Double.mul (Double.of_Z 1) (Double.round dt)))).

Definition grow (dt : float) (o : Object) : Object :=
  let o1 := set_mass (grown_mass dt (mass o)) o in
  UpdateVertices (set_radius (radius_grow (mass o1) (density o1)) o1).

(** [if (!objs.empty() && objs.back().Initalizing)
      if (glfwGetMouseButton(window, GLFW_MOUSE_BUTTON_RIGHT) == GLFW_PRESS) ...] *)
Definition growth (dt : float) (rightDown : bool) (v : list Object) : list Object :=
  match last v with
  | Some o => if Initalizing o && rightDown then <[pred (length v) := grow dt o]> v else v
  | None => v
  end.

(** *** The grid *)

(** [CreateGridVertices(size, divisions, objs)]: the flat grid *)
Definition CreateGridVertices (size : float) (divisions : nat) : list float :=
  let step := Float.div size (Float.of_Z (Z.of_nat divisions)) in
  let halfSize := Float.div size (Float.of_Z 2) in
  let y := Float.add (Float.mul (Float.opp halfSize) (Float.of_dec 3 10))
                     (Float.mul (Float.of_Z 3) step) in
  let coord (k : nat) := Float.add (Float.opp halfSize)
                                   (Float.mul (Float.of_Z (Z.of_nat k)) step) in
  flat_map (fun zStep =>
    let z := coord zStep in
    flat_map (fun xStep =>
      let xStart := coord xStep in
      let xEnd := Float.add xStart step in
      [xStart; y; z; xEnd; y; z]) (seq 0 divisions)) (seq 0 (S divisions))
  ++
  flat_map (fun xStep =>
    let x := coord xStep in
    flat_map (fun zStep =>
      let zStart := coord zStep in
      let zEnd := Float.add zStart step in
      [x; y; zStart; x; y; zEnd]) (seq 0 divisions)) (seq 0 (S divisions)).

(** the centre of mass height [comY] of [UpdateGridVertices] *)
Definition centerOfMassY (v : list Object) : float :=
  let '(comY, totalMass) :=
    foldl (fun '(comY, totalMass) obj =>
             if Initalizing obj then (comY, totalMass)
             else (Float.add comY (Float.mul (mass obj) (vy (position obj))),
                   Float.add totalMass (mass obj)))
          (Float.zero, Float.zero) v in
  if Float.gtb totalMass Float.zero then Float.div comY totalMass else comY.

(** [std::max(a, b)] is [(a < b) ? b : a] *)
Definition fmax (a b : float) : float := if Float.ltb a b then b else a.

(** [originalMaxY]: the maximum of the [y] entries of the buffer *)
Fixpoint maxY (acc : float) (vs : list float) : float :=
  match vs with
  | _ :: y :: _ :: rest => maxY (fmax acc y) rest
  | _ => acc
  end.

(** the Schwarzschild radius [rs = (2*G*obj.mass)/(c*c)] *)
Definition schwarzschild (obj : Object) : float :=
  Float.round (Double.div (Double.mul (Double.mul (Double.of_Z 2) G) (Double.round (mass obj)))
                          (Double.round (Float.mul c c))).

(** [distance_m]: the distance of a vertex to a body in metres *)
Definition distance_m (vertexPos : vec3) (obj : Object) : float :=
  Float.mul (vec3_length (vec3_sub (GetPos obj) vertexPos)) (Float.of_Z 1000).

(** the argument [rs * (distance_m - rs)] handed to the C [sqrt] *)
Definition sqrt_arg (vertexPos : vec3) (obj : Object) : double :=
  let rs := schwarzschild obj in
  Double.round (Float.mul rs (Float.sub (distance_m vertexPos obj) rs)).

(** [float dz = 2 * sqrt(rs * (distance_m - rs));] *)
Definition depth (vertexPos : vec3) (obj : Object) : float :=
  Float.round (Double.mul (Double.of_Z 2) (Double.sqrt (sqrt_arg vertexPos obj))).

(** [totalDisplacement.y] after the loop over the bodies *)
Definition totalDisplacementY (vertexPos : vec3) (v : list Object) : float :=
  foldl (fun acc obj => Float.add acc (Float.mul (depth vertexPos obj) (Float.of_Z 2)))
        Float.zero v.

(** the second loop of [UpdateGridVertices] *)
Fixpoint warp (verticalShift : float) (v : list Object) (vs : list float) : list float :=
  match vs with
  | x :: y :: z :: rest =>
      x :: Float.add (totalDisplacementY (Vec3 x y z) v) (Float.opp (abs verticalShift))
        :: z :: warp verticalShift v rest
  | _ => vs
  end.

(** [UpdateGridVertices(vertices, objs)] *)
Definition UpdateGridVertices (vertices : list float) (v : list Object) : list float :=
  let comY := centerOfMassY v in
  let originalMaxY := maxY (S754_infinity true) vertices in
  let verticalShift := Float.sub comY originalMaxY in
  warp verticalShift v vertices.

(** *** One iteration of the render loop

    [now] is [glfwGetTime()] converted to [float], [rightDown] the state of
    the right mouse button. *)
Definition frame (now : float) (rightDown : bool) (st : Sim) : Sim :=
  let dt := Float.sub now (lastFrame st) in
  let v1 := growth dt rightDown (objs st) in
  let grid := UpdateGridVertices (gridVertices st) v1 in
  let v2 := physics (pause st) v1 in
  mkSim (running st) (pause st) dt now v2 grid.

(** *** Input callbacks *)

(** the arrow-key nudge [position[k] += radius * 0.2] ([0.2] is a [double]) *)
Definition nudge (sign : bool) (r p : float) : float :=
  let d := Double.mul (Double.round r) (Double.of_dec 2 10) in
  Float.round (if sign then Double.sub (Double.round p) d else Double.add (Double.round p) d).

Definition nudge_x (sign : bool) (o : Object) : Object :=
  let p := position o in set_position (Vec3 (nudge sign (radius o) (vx p)) (vy p) (vz p)) o.
Definition nudge_y (sign : bool) (o : Object) : Object :=
  let p := position o in set_position (Vec3 (vx p) (nudge sign (radius o) (vy p)) (vz p)) o.
Definition nudge_z (sign : bool) (o : Object) : Object :=
  let p := position o in set_position (Vec3 (vx p) (vy p) (nudge sign (radius o) (vz p))) o.

(** the block [if(!objs.empty() && objs[objs.size() - 1].Initalizing){...}]
    of [keyCallback], applied to the last body *)
Definition positioning (key : Key) (action : Action) (shiftPressed : bool) (o : Object) : Object :=
  let hit k := Key_eqb key k && press_or_repeat action in
  let o := if hit KEY_UP && negb shiftPressed then nudge_y false o else o in
  let o := if hit KEY_DOWN && negb shiftPressed then nudge_y true o else o in
  let o := if hit KEY_RIGHT then nudge_x false o else o in
  let o := if hit KEY_LEFT then nudge_x true o else o in
  let o := if hit KEY_UP then nudge_z false o else o in
  let o := if hit KEY_DOWN then nudge_z true o else o in
  o.

(** [keyCallback]: [held k] is [glfwGetKey(window, k) == GLFW_PRESS].
    The result is [None] when the vector is indexed out of range. *)
Definition keyCallback (held : Key -> bool) (key : Key) (action : Action)
    (shiftPressed : bool) (st : Sim) : option Sim :=
  (* Object& lastObj = objs[objs.size() - 1]; *)
  match vec_get (objs st) (last_index (objs st)) with
  | None => None
  | Some _ =>
      let st := if held KEY_K then set_pause true st else st in
      let st := if negb (held KEY_K) then set_pause false st else st in
      let st := if held KEY_Q then set_running false st else st in
      match objs st with
      | [] => Some st
      | _ :: _ =>
          match vec_get (objs st) (last_index (objs st)) with
          | None => None
          | Some o =>
              if Initalizing o
              then option_map (fun v => set_objs v st)
                     (vec_update (objs st) (last_index (objs st))
                        (positioning key action shiftPressed))
              else Some st
          end
      end
  end.

(** [mouseButtonCallback] *)
Definition mouseButtonCallback (button : MouseButton) (action : Action) (st : Sim) : option Sim :=
  let left :=
    match button, action with
    | MOUSE_BUTTON_LEFT, PRESS =>
        let v := objs st ++ [new_Object vec3_zero vec3_zero initMass (Float.of_Z 3344) false] in
        vec_update v (last_index v) (set_Initalizing true)
    | MOUSE_BUTTON_LEFT, RELEASE =>
        match vec_update (objs st) (last_index (objs st)) (set_Initalizing false) with
        | Some v => vec_update v (last_index v) (set_Launched true)
        | None => None
        end
    | _, _ => Some (objs st)
    end in
  match left with
  | None => None
  | Some v =>
      match v, button with
      | _ :: _, MOUSE_BUTTON_RIGHT =>
          match vec_get v (last_index v) with
          | None => None
          | Some o =>
              if Initalizing o && press_or_repeat action
              then option_map (fun v' => set_objs v' st)
                     (vec_update v (last_index v)
                        (fun o => set_mass (Float.round (Double.mul (Double.round (mass o))
                                                           (Double.of_dec 12 10))) o))
              else Some (set_objs v st)
          end
      | _, _ => Some (set_objs v st)
      end
  end.

(** *** The program as a transition system *)

Inductive Event :=
| Frame (now : float) (rightDown : bool)
| KeyEvent (held : Key -> bool) (key : Key) (action : Action) (shiftPressed : bool)
| MouseEvent (button : MouseButton) (action : Action).

Definition step (ev : Event) (st : Sim) : option Sim :=
  match ev with
  | Frame now rightDown => Some (frame now rightDown st)
  | KeyEvent held key action shiftPressed => keyCallback held key action shiftPressed st
  | MouseEvent button action => mouseButtonCallback button action st
  end.

Fixpoint run (evs : list Event) (st : Sim) : option Sim :=
  match evs with
  | [] => Some st
  | ev :: evs' => match step ev st with Some st' => run evs' st' | None => None end
  end.

(** *** Reading the loops

    What the inner loop does to body [i] at partner index [j], read off the
    vector [v] the loop started with. *)
Definition partnerStep (paused : bool) (i : nat) (v : list Object) (o : Object) (j : nat) : Object :=
  match v !! j with
  | Some obj2 => if admitted i j o obj2 then pairStep paused o obj2 else o
  | None => o
  end.

(** the bodies [obj2 = rest[0], rest[1], ...] at indices [j, j+1, ...] for
    which the pair [(obj, obj2)] passes both guards of the inner loop, in
    the order the loop meets them *)
Fixpoint partners_from (i j : nat) (obj : Object) (rest : list Object) : list Object :=
  match rest with
  | [] => []
  | obj2 :: rest' =>
      (if admitted i j obj obj2 && Float.gtb (separation obj obj2) Float.zero
       then [obj2] else [])
      ++ partners_from i (S j) obj rest'
  end.

Definition partners (v : list Object) (i : nat) (obj : Object) : list Object :=
  partners_from i 0 obj v.

(** the vector when the outer loop reaches body [i] *)
Definition reached (paused : bool) (v : list Object) (i : nat) : list Object :=
  foldl (bodyStep paused) v (seq 0 i).

(** one admitted pair with positive separation, acting on the velocity *)
Definition pairVelocity (paused : bool) (obj : Object) (vel : vec3) (obj2 : Object) : vec3 :=
  vec3_scale (CheckCollision obj obj2) (velocity (kick paused (set_velocity vel obj) obj2)).

(** what a body contributes to the tests of the loops on other bodies *)
Definition shape (o : Object) : vec3 * bool * float :=
  (position o, Initalizing o, if Initalizing o then Float.zero else radius o).

(** the state [main] enters the render loop with *)
Definition main_objs : list Object :=
  let e22 := pow (Double.of_Z 10) (Double.of_Z 22) in
  let e25 := pow (Double.of_Z 10) (Double.of_Z 25) in
  [ new_Object (Vec3 (Float.of_Z (-5000)) (Float.of_Z 650) (Float.of_Z (-350)))
               (Vec3 Float.zero Float.zero (Float.of_Z 1500))
               (Float.round (Double.mul (Double.of_dec 597219 100000) e22))
               (Float.of_Z 5515) false;
    new_Object (Vec3 (Float.of_Z 5000) (Float.of_Z 650) (Float.of_Z (-350)))
               (Vec3 Float.zero Float.zero (Float.of_Z (-1500)))
               (Float.round (Double.mul (Double.of_dec 597219 100000) e22))
               (Float.of_Z 5515) false;
    new_Object (Vec3 Float.zero Float.zero (Float.of_Z (-350)))
               vec3_zero
               (Float.round (Double.mul (Double.of_dec 1989 1000) e25))
               (Float.of_Z 5515) true ].

Definition main_init : Sim :=
  mkSim true true Float.zero Float.zero main_objs
        (CreateGridVertices (Float.of_Z 20000) 25).

End Simulation.

(** ** Concrete runs, with the reference library *)

Module Run.
Definition new_Object := new_Object LibM.pow LibM.sin LibM.cos.
Definition physics := physics LibM.pow LibM.powf LibM.sin LibM.cos.
Definition frame := frame LibM.pow LibM.powf LibM.sin LibM.cos LibM.abs_int.
Definition UpdateGridVertices := UpdateGridVertices LibM.abs_int.
Definition mouseButtonCallback := mouseButtonCallback LibM.pow LibM.sin LibM.cos.
Definition step := step LibM.pow LibM.powf LibM.sin LibM.cos LibM.abs_int.
Definition run := run LibM.pow LibM.powf LibM.sin LibM.cos LibM.abs_int.

(** the globals as initialised before [main] fills [objs]: no body, paused *)
Definition empty_sim : Sim := mkSim true true Float.zero Float.zero [] [].

Definition no_key : Key -> bool := fun _ => false.
Definition only (k : Key) : Key -> bool := Key_eqb k.

(** the mass of the two planets of [main], [5.97219*pow(10, 22)] *)
Definition planet_mass : float :=
  Eval vm_compute in
    Float.round (Double.mul (Double.of_dec 597219 100000) (LibM.pow (Double.of_Z 10) (Double.of_Z 22))).
(** the mass of the star of [main], [1.989 * pow(10, 25)] *)
Definition star_mass : float :=
  Eval vm_compute in
    Float.round (Double.mul (Double.of_dec 1989 1000) (LibM.pow (Double.of_Z 10) (Double.of_Z 25))).

Definition at_x (x : Z) : vec3 := Vec3 (Float.of_Z x) Float.zero Float.zero.

(** a planet of [main] at the origin, moving along [z] as in [main] *)
Definition planet_a : Object :=
  Eval vm_compute in
    new_Object (at_x 0) (Vec3 Float.zero Float.zero (Float.of_Z 1500))
               planet_mass (Float.of_Z 5515) false.
(** a second planet, [x] units along the x axis, at rest *)
Definition planet_b (x : Z) : Object :=
  set_position (at_x x) (set_velocity vec3_zero planet_a).

(** two planets 50 units apart: their spheres (radius about 45.7) overlap *)
Definition overlapping_pair (paused : bool) : Sim :=
  mkSim true paused Float.zero Float.zero [planet_a; planet_b 50] [].

(** two planets at the same place *)
Definition coincident_pair : list Object := [planet_a; planet_b 0].

(** a star of [main] at rest at the origin, and a twin [x] units away *)
Definition star_a : Object :=
  Eval vm_compute in
    new_Object (at_x 0) vec3_zero star_mass (Float.of_Z 5515) true.
Definition star_b (x : Z) : Object := set_position (at_x x) star_a.

(** two equal stars at rest, 700 units apart (radius about 317), running *)
Definition twin_stars : Sim :=
  mkSim true false Float.zero Float.zero [star_a; star_b 700] [].

(** the state after a left click on the empty scene: one body under
    construction at the origin *)
Definition clicked : Sim :=
  Eval vm_compute in
    match mouseButtonCallback MOUSE_BUTTON_LEFT PRESS empty_sim with
    | Some st => st
    | None => empty_sim
    end.
(** that body *)
Definition created : Object :=
  Eval vm_compute in
    match objs clicked with
    | o :: _ => o
    | [] => planet_a
    end.

(** a grid of one vertex, at the origin *)
Definition vertex_at_origin : list float := [Float.zero; Float.zero; Float.zero].
(** a grid of one vertex, 5 units above the origin *)
Definition vertex_above : list float := [Float.zero; Float.of_Z 5; Float.zero].

(** a body under construction with the grow button held, five and a half
    hours after start-up: at 20000 s the [float] clock advances in steps of
    1/512 s, and two frames less than that apart read the same time *)
Definition late_clock : float := Float.of_Z 20000.
Definition growing_late : Sim :=
  mkSim true true Float.zero late_clock [created] [].
End Run.

(** ** The camera

    The globals [cameraPos], [cameraFront], [cameraUp], [lastX], [lastY],
    [yaw] and [pitch].  [glm::radians] and [glm::normalize] belong to the
    GLM library and are parameters. *)

Record Camera := mkCamera {
  cameraPos : vec3;
  cameraFront : vec3;
  cameraUp : vec3;
  lastX : float;
  lastY : float;
  yaw : float;
  pitch : float
}.

Section Camera.
Variable sin : double -> double.
Variable cos : double -> double.
Variable radians : float -> float.
Variable normalize : vec3 -> vec3.

(** [if(pitch > 89.0f) pitch = 89.0f; if(pitch < -89.0f) pitch = -89.0f;] *)
Definition clamp_pitch (p : float) : float :=
  let p := if Float.gtb p (Float.of_Z 89) then Float.of_Z 89 else p in
  if Float.ltb p (Float.of_Z (-89)) then Float.of_Z (-89) else p.

(** [mouse_callback(window, xpos, ypos)] *)
Definition mouse_callback (xpos ypos : double) (cam : Camera) : Camera :=
  let xoffset := Float.round (Double.sub xpos (Double.round (lastX cam))) in
  let yoffset := Float.round (Double.sub (Double.round (lastY cam)) ypos) in
  let sensitivity := Float.of_dec 1 10 in
  let xoffset := Float.mul xoffset sensitivity in
  let yoffset := Float.mul yoffset sensitivity in
  let yaw' := Float.add (yaw cam) xoffset in
  let pitch' := clamp_pitch (Float.add (pitch cam) yoffset) in
  let cy := cos (Double.round (radians yaw')) in
  let sy := sin (Double.round (radians yaw')) in
  let cp := cos (Double.round (radians pitch')) in
  let sp := sin (Double.round (radians pitch')) in
  let front := Vec3 (Float.round (Double.mul cy cp)) (Float.round sp)
                    (Float.round (Double.mul sy cp)) in
  mkCamera (cameraPos cam) (normalize front) (cameraUp cam)
           (Float.round xpos) (Float.round ypos) yaw' pitch'.

End Camera.

(** ** The grid of the variant [Gravity Simulation 3D]

    There [CreateGridVertices(size, divisions, objs)] builds the same flat
    grid and then displaces it, every frame anew. *)
Module Gravity3D.
(** [float z = 2 * sqrt(rs*(distance_m - rs)) * 100.0f;] *)
Definition dip (vertexPos : vec3) (obj : Object) : float :=
  Float.round (Double.mul (Double.mul (Double.of_Z 2) (Double.sqrt (sqrt_arg vertexPos obj)))
                          (Double.round (Float.of_Z 100))).

(** [totalDisplacement += z;] adds the scalar to every component *)
Definition totalDisplacement (vertexPos : vec3) (v : list Object) : vec3 :=
  foldl (fun t obj =>
           let z := dip vertexPos obj in
           Vec3 (Float.add (vx t) z) (Float.add (vy t) z) (Float.add (vz t) z))
        vec3_zero v.

(** the loop [for (int i = 0; i < vertices.size(); i += 3)] *)
Fixpoint distort (v : list Object) (vs : list float) : list float :=
  match vs with
  | x :: y :: z :: rest =>
      let t := totalDisplacement (Vec3 x y z) v in
      x :: Float.sub (Float.div (Float.add y (vy t)) (Float.of_Z 15)) (Float.of_Z 3000)
        :: z :: distort v rest
  | _ => vs
  end.

Definition CreateGridVertices (size : float) (divisions : nat) (v : list Object) : list float :=
  distort v (CreateGridVertices size divisions).
End Gravity3D.

(** the [y] entries of a vertex buffer, one per vertex *)
Fixpoint heights (vs : list float) : list float :=
  match vs with
  | _ :: y :: _ :: rest => y :: heights rest
  | _ => []
  end.

(** ** Small states, for instances of the general statements *)
Module Sample.
Definition body (creating : bool) (x : Z) : Object :=
  mkObject (Vec3 (Float.of_Z x) Float.zero Float.zero)
           (Vec3 Float.zero (Float.of_Z 3) Float.zero)
           creating (negb creating) initMass (Float.of_Z 3344) (Float.of_Z 2) false [].

(** a launched body and, far from it, a body under construction *)
Definition sim (paused : bool) : Sim :=
  mkSim true paused Float.zero Float.zero [body false 0; body true 100] [].

(** two launched bodies of radius 2, 100 units apart *)
Definition apart (paused : bool) : Sim :=
  mkSim true paused Float.zero Float.zero [body false 0; body false 100] [].

(** four launched bodies of radius 2 on the x axis: the first overlaps
    the second and the fourth, not the third *)
Definition crowd : list Object :=
  [body false 0; body false 1; body false 100; body false 3].

(** a star as heavy as the one of [main], on the first vertex of the
    flat grid of one cell *)
Definition on_vertex : Object :=
  match CreateGridVertices (Float.of_Z 2) 1 with
  | x :: y :: z :: _ =>
      mkObject (Vec3 x y z) vec3_zero false true
               (Float.round (Double.mul (Double.of_dec 1989 1000)
                                        (LibM.pow (Double.of_Z 10) (Double.of_Z 25))))
               (Float.of_Z 5515) (Float.of_Z 2) true []
  | _ => body false 0
  end.

End Sample.

(** the body [mouseButtonCallback] appends on a left press:
    [objs.emplace_back(glm::vec3(0.0, 0.0, 0.0), glm::vec3(0.0f, 0.0f, 0.0f), initMass)],
    the density defaulted to 3344 and [glow] to [false] *)
Definition clicked_body (pow : double -> double -> double) (sin cos : double -> double) : Object :=
  new_Object pow sin cos vec3_zero vec3_zero initMass (Float.of_Z 3344) false.

(** [objs[objs.size()-1].mass *= 1.2;] of the right click *)
Definition clicked_mass (m : float) : float :=
  Float.round (Double.mul (Double.round m) (Double.of_dec 12 10)).

(** ** Directions

    [has_sign s x]: the number [x] is a zero, a NaN, or has the sign [s]. *)
Definition has_sign (s : bool) (x : spec_float) : Prop :=
  match x with
  | S754_infinity s' | S754_finite s' _ _ => s' = s
  | _ => True
  end.

(** [signed s x]: the same, with the sign of a zero taken into account *)
Definition signed (s : bool) (x : spec_float) : Prop :=
  match x with
  | S754_zero s' | S754_infinity s' | S754_finite s' _ _ => s' = s
  | S754_nan => True
  end.

(** [x] does not point against [d]: where [d] is not negative neither is
    [x], and where [d] is not positive neither is [x]; where [d] is a zero,
    [x] is a zero or a NaN *)
Definition along (d x : float) : Prop :=
  (Float.ltb d Float.zero = false -> Float.ltb x Float.zero = false)
  /\ (Float.ltb Float.zero d = false -> Float.ltb Float.zero x = false).

(** the vector [v] points from the place [p] towards the place [q],
    component by component *)
Definition towards (p q v : vec3) : Prop :=
  along (Float.sub (vx q) (vx p)) (vx v)
  /\ along (Float.sub (vy q) (vy p)) (vy v)
  /\ along (Float.sub (vz q) (vz p)) (vz v).

(** the factor [-0.2f], bit by bit *)
Definition minus_fifth : float := S754_finite true 13421773 (-26).

(** a velocity multiplied by [-0.2f], written out *)
Definition damped (v : vec3) : vec3 :=
  Vec3 (Float.mul (vx v) minus_fifth) (Float.mul (vy v) minus_fifth)
       (Float.mul (vz v) minus_fifth).

(** ** Properties of the model *)

(** The IEEE operations are computed by [vm_compute] only. *)
Arguments binary_normalize : simpl never.
Arguments binary_round_aux : simpl never.
Arguments SFadd : simpl never.
Arguments SFsub : simpl never.
Arguments SFmul : simpl never.
Arguments SFdiv : simpl never.
Arguments SFsqrt : simpl never.
Arguments SFcompare : simpl never.
Arguments SFltb : simpl never.
Arguments Float.of_Z : simpl never.
Arguments Float.of_dec : simpl never.
Arguments Float.round : simpl never.
Arguments Double.of_Z : simpl never.
Arguments Double.of_dec : simpl never.
Arguments Double.round : simpl never.

(** *** IEEE facts used below *)

Lemma SFmul_nan_l prec emax x : SFmul prec emax S754_nan x = S754_nan.
Proof. reflexivity. Qed.

Lemma SFmul_nan_r prec emax x : SFmul prec emax x S754_nan = S754_nan.
Proof. by destruct x. Qed.

Lemma SFadd_nan_l prec emax x : SFadd prec emax S754_nan x = S754_nan.
Proof. reflexivity. Qed.

Lemma SFadd_nan_r prec emax x : SFadd prec emax x S754_nan = S754_nan.
Proof. by destruct x. Qed.

(** the square root of a negative number is NaN *)
Lemma SFsqrt_negative prec emax x :
  SFltb x (S754_zero false) = true -> SFsqrt prec emax x = S754_nan.
Proof. destruct x as [s|s| |s m e]; try destruct s; try discriminate; reflexivity. Qed.


(** ** Rounding *)

Section Rounding.
Local Open Scope Z_scope.

Lemma bpow_pos e : (0 < bpow e)%R.
Proof. apply powerRZ_lt. lra. Qed.

Lemma bpow_add a b : bpow (a + b) = (bpow a * bpow b)%R.
Proof. apply powerRZ_add. lra. Qed.

Lemma bpow_IZR k : 0 <= k -> bpow k = IZR (2 ^ k).
Proof.
  intros Hk. unfold bpow. rewrite <- (Z2Nat.id k Hk) at 1.
  rewrite <- pow_powerRZ, pow_IZR. by rewrite Z2Nat.id.
Qed.

Lemma bpow_le a b : a <= b -> (bpow a <= bpow b)%R.
Proof.
  intros Hab. replace b with (a + (b - a)) by lia. rewrite bpow_add.
  assert (1 <= bpow (b - a))%R.
  { rewrite bpow_IZR by lia. apply IZR_le.
    pose proof (Z.pow_pos_nonneg 2 (b - a)). lia. }
  pose proof (bpow_pos a). nra.
Qed.

(** aligning a mantissa to a smaller exponent *)
Lemma F2R_shift m e k : 0 <= k -> F2R (m * 2 ^ k) (e - k) = F2R m e.
Proof.
  intros Hk. unfold F2R. rewrite mult_IZR, <- bpow_IZR by done.
  replace e with ((e - k) + k) at 2 by lia. rewrite bpow_add. lra.
Qed.

Lemma F2R_le_mantissa m1 m2 e : m1 <= m2 -> (F2R m1 e <= F2R m2 e)%R.
Proof.
  intros H. unfold F2R. apply IZR_le in H. pose proof (bpow_pos e). nra.
Qed.

Lemma F2R_le_inv m1 m2 e : (F2R m1 e <= F2R m2 e)%R -> m1 <= m2.
Proof.
  unfold F2R. intros H. apply le_IZR. pose proof (bpow_pos e). nra.
Qed.

Lemma F2R_lt_inv m1 m2 e : (F2R m1 e < F2R m2 e)%R -> m1 < m2.
Proof.
  unfold F2R. intros H. apply lt_IZR. pose proof (bpow_pos e). nra.
Qed.

(** *** The number of digits *)

Lemma digits2_pos_bounds m :
  2 ^ (Zpos (digits2_pos m) - 1) <= Zpos m < 2 ^ Zpos (digits2_pos m).
Proof.
  induction m as [m IH|m IH|]; simpl digits2_pos; [| |simpl; lia].
  - rewrite Pos2Z.inj_succ, (Pos2Z.inj_xI m).
    replace (Z.succ (Zpos (digits2_pos m)) - 1) with (Z.succ (Zpos (digits2_pos m) - 1)) by lia.
    rewrite !Z.pow_succ_r by lia. lia.
  - rewrite Pos2Z.inj_succ, (Pos2Z.inj_xO m).
    replace (Z.succ (Zpos (digits2_pos m)) - 1) with (Z.succ (Zpos (digits2_pos m) - 1)) by lia.
    rewrite !Z.pow_succ_r by lia. lia.
Qed.

Lemma digits2_pos_le m a : Zpos m < 2 ^ a -> Zpos (digits2_pos m) <= a.
Proof.
  intros H. destruct (Z.le_gt_cases (Zpos (digits2_pos m)) a) as [|Hgt]; [done|].
  pose proof (digits2_pos_bounds m) as [Hl _].
  assert (0 <= a) by (destruct (Z.le_gt_cases 0 a); [done|rewrite Z.pow_neg_r in H; lia]).
  pose proof (Z.pow_le_mono_r 2 a (Zpos (digits2_pos m) - 1)). lia.
Qed.

Lemma digits2_pos_ge m a : 2 ^ (a - 1) <= Zpos m -> a <= Zpos (digits2_pos m).
Proof.
  intros H. destruct (Z.le_gt_cases a (Zpos (digits2_pos m))) as [|Hgt]; [done|].
  pose proof (digits2_pos_bounds m) as [_ Hu].
  pose proof (Z.pow_le_mono_r 2 (Zpos (digits2_pos m)) (a - 1)). lia.
Qed.

Lemma digits2_pos_unique m a :
  2 ^ (a - 1) <= Zpos m < 2 ^ a -> Zpos (digits2_pos m) = a.
Proof.
  intros [Hl Hu]. pose proof (digits2_pos_le m a Hu). pose proof (digits2_pos_ge m a Hl). lia.
Qed.

Lemma digits2_pos_mono m1 m2 :
  Zpos m1 <= Zpos m2 -> Zpos (digits2_pos m1) <= Zpos (digits2_pos m2).
Proof.
  intros H. apply digits2_pos_le.
  pose proof (digits2_pos_bounds m2). lia.
Qed.

(** *** Shifting right *)

Lemma shr_1_m mrs : 0 <= shr_m mrs -> shr_m (shr_1 mrs) = shr_m mrs / 2.
Proof.
  destruct mrs as [m r s]. simpl. intros Hm.
  destruct m as [|q|q]; [done| |lia].
  destruct q as [q|q|]; simpl; [| |done].
  - rewrite (Pos2Z.inj_xI q). apply (Z.div_unique _ 2 _ 1); lia.
  - rewrite (Pos2Z.inj_xO q). apply (Z.div_unique _ 2 _ 0); lia.
Qed.

Lemma iter_shr_m p : forall mrs,
  0 <= shr_m mrs ->
  shr_m (SpecFloat.iter_pos shr_1 p mrs) = shr_m mrs / 2 ^ Zpos p.
Proof.
  assert (Hnn : forall a b, 0 <= a -> 0 < b -> 0 <= a / b) by (intros; by apply Z.div_pos).
  induction p as [p IH|p IH|]; intros mrs Hm; simpl SpecFloat.iter_pos.
  - assert (H1 : 0 <= shr_m (shr_1 mrs)) by (rewrite shr_1_m by done; apply Hnn; lia).
    assert (H2 : 0 <= shr_m (SpecFloat.iter_pos shr_1 p (shr_1 mrs))).
    { rewrite IH by done. apply Hnn; [done|]. apply Z.pow_pos_nonneg; lia. }
    rewrite IH, IH, shr_1_m by done.
    rewrite !Z.div_div by (try apply Z.pow_pos_nonneg; lia).
    f_equal. rewrite (Pos2Z.inj_xI p).
    replace (2 * Zpos p + 1) with (1 + Zpos p + Zpos p) by lia.
    rewrite !Z.pow_add_r by lia. lia.
  - assert (H2 : 0 <= shr_m (SpecFloat.iter_pos shr_1 p mrs)).
    { rewrite IH by done. apply Hnn; [done|]. apply Z.pow_pos_nonneg; lia. }
    rewrite IH, IH by done.
    rewrite !Z.div_div by (try apply Z.pow_pos_nonneg; lia).
    f_equal. rewrite (Pos2Z.inj_xO p).
    replace (2 * Zpos p) with (Zpos p + Zpos p) by lia.
    rewrite !Z.pow_add_r by lia. lia.
  - by apply shr_1_m.
Qed.

Lemma shr_record_of_loc_m m l : shr_m (shr_record_of_loc m l) = m.
Proof. by destruct l as [|[]]. Qed.

Lemma round_nearest_even_bounds m l :
  m <= round_nearest_even m l <= m + 1.
Proof. destruct l as [|[]]; simpl; try destruct (Z.even m); lia. Qed.

(** *** Rounding to a format *)

Variables prec emax : Z.
Hypothesis Hprec : 0 < prec.

Lemma fexp_emin x : emin prec emax <= fexp prec emax x.
Proof. unfold fexp. lia. Qed.

Lemma fexp_mono x y : x <= y -> fexp prec emax x <= fexp prec emax y.
Proof. unfold fexp. lia. Qed.

(** [shr_fexp] drops the [k] low bits of the mantissa, [k] the distance of
    the exponent to the canonical one *)
Lemma shr_fexp_spec M E l :
  0 <= M ->
  let k := Z.max 0 (fexp prec emax (Zdigits2 M + E) - E) in
  exists mrs, shr_fexp prec emax M E l = (mrs, E + k) /\ shr_m mrs = M / 2 ^ k.
Proof.
  intros HM k. unfold shr_fexp, shr. subst k.
  destruct (fexp prec emax (Zdigits2 M + E) - E) as [|p|p] eqn:Hk.
  - eexists. split; [f_equal; lia|]. rewrite shr_record_of_loc_m. simpl. by rewrite Z.div_1_r.
  - eexists. split; [f_equal; lia|]. rewrite iter_shr_m by by rewrite shr_record_of_loc_m.
    rewrite shr_record_of_loc_m. f_equal.
  - eexists. split; [f_equal; lia|]. rewrite shr_record_of_loc_m. simpl. by rewrite Z.div_1_r.
Qed.

Lemma F2R_pow2 a e : 0 <= a -> F2R (2 ^ a) e = bpow (a + e).
Proof. intros Ha. unfold F2R. by rewrite <- bpow_IZR, bpow_add. Qed.

(** dropping those bits does not go below a number of the format *)
Lemma truncation_at_least M E mr er :
  emin prec emax <= er -> Zpos (digits2_pos mr) <= prec ->
  (F2R (Zpos mr) er <= F2R (Zpos M) E)%R ->
  let k := Z.max 0 (fexp prec emax (Zpos (digits2_pos M) + E) - E) in
  (F2R (Zpos mr) er <= F2R (Zpos M / 2 ^ k) (E + k))%R.
Proof.
  intros Her Hmr Hle k.
  destruct (Z.le_gt_cases (fexp prec emax (Zpos (digits2_pos M) + E) - E) 0) as [Hk|Hk].
  { replace k with 0 by lia. by rewrite Z.div_1_r, Z.add_0_r. }
  assert (Hkk : k = fexp prec emax (Zpos (digits2_pos M) + E) - E) by lia.
  assert (Hk0 : 0 < k) by lia.
  assert (H2k : 0 < 2 ^ k) by (apply Z.pow_pos_nonneg; lia).
  destruct (Z.le_gt_cases (E + k) er) as [Hc|Hc].
  - (* the number is a multiple of the new unit *)
    rewrite <- (F2R_shift (Zpos mr) er (er - (E + k))) by lia.
    replace (er - (er - (E + k))) with (E + k) by lia.
    apply F2R_le_mantissa, Z.div_le_lower_bound; [done|].
    rewrite <- (F2R_shift (Zpos mr) er (er - E)) in Hle by lia.
    replace (er - (er - E)) with E in Hle by lia.
    apply F2R_le_inv in Hle.
    replace (er - E) with ((er - (E + k)) + k) in Hle by lia.
    rewrite Z.pow_add_r in Hle by lia. lia.
  - (* the number is below the smallest mantissa of [prec] digits *)
    assert (He : E + k = Zpos (digits2_pos M) + E - prec) by (unfold fexp in *; lia).
    pose proof (digits2_pos_bounds M) as [HMl _].
    pose proof (digits2_pos_bounds mr) as [_ Hmu].
    assert (Hq : 2 ^ (prec - 1) <= Zpos M / 2 ^ k).
    { apply Z.div_le_lower_bound; [done|].
      rewrite <- Z.pow_add_r by lia.
      replace (k + (prec - 1)) with (Zpos (digits2_pos M) - 1) by lia. done. }
    assert (Hm : Zpos mr <= 2 ^ prec).
    { pose proof (Z.pow_le_mono_r 2 (Zpos (digits2_pos mr)) prec). lia. }
    apply (F2R_le_mantissa _ _ er) in Hm. apply (F2R_le_mantissa _ _ (E + k)) in Hq.
    rewrite F2R_pow2 in Hm, Hq by lia.
    pose proof (bpow_le (prec + er) (prec - 1 + (E + k)) ltac:(lia)). lra.
Qed.

Lemma F2R_pos m e : (0 < F2R (Zpos m) e)%R.
Proof.
  unfold F2R. pose proof (bpow_pos e). assert (0 < IZR (Zpos m))%R by by apply IZR_lt. nra.
Qed.

Lemma F2R_pos_inv m e : (0 < F2R m e)%R -> 0 < m.
Proof.
  unfold F2R. intros H. apply lt_IZR. pose proof (bpow_pos e). nra.
Qed.

(** rounding to nearest does not go below a number of the format either *)
Lemma binary_round_aux_at_least M E l mr er :
  emin prec emax <= er -> Zpos (digits2_pos mr) <= prec ->
  (F2R (Zpos mr) er <= F2R (Zpos M) E)%R ->
  at_least (binary_round_aux prec emax false (Zpos M) E l) (F2R (Zpos mr) er).
Proof.
  intros Her Hmr Hle. unfold binary_round_aux.
  destruct (shr_fexp_spec (Zpos M) E l) as (mrs1 & -> & Hm1); [lia|].
  pose proof (truncation_at_least M E mr er Her Hmr Hle) as H1. simpl in H1.
  simpl Zdigits2 in *. rewrite <- Hm1 in H1.
  set (e1 := E + Z.max 0 (fexp prec emax (Zpos (digits2_pos M) + E) - E)) in *.
  set (m1 := round_nearest_even (shr_m mrs1) (loc_of_shr_record mrs1)).
  pose proof (round_nearest_even_bounds (shr_m mrs1) (loc_of_shr_record mrs1)) as Hr.
  fold m1 in Hr.
  pose proof (F2R_pos mr er) as Hpos.
  assert (Hs1 : 0 < shr_m mrs1) by (apply (F2R_pos_inv _ e1); lra).
  assert (H2 : (F2R (Zpos mr) er <= F2R m1 e1)%R).
  { pose proof (F2R_le_mantissa (shr_m mrs1) m1 e1 ltac:(lia)). lra. }
  destruct m1 as [|p1|p1] eqn:Em1; [lia| |lia].
  destruct (shr_fexp_spec (Zpos p1) e1 loc_Exact) as (mrs2 & -> & Hm2); [lia|].
  pose proof (truncation_at_least p1 e1 mr er Her Hmr H2) as H3. simpl in H3.
  simpl Zdigits2 in *. rewrite <- Hm2 in H3.
  destruct (shr_m mrs2) as [|p2|p2] eqn:Em2.
  - assert (Hz : forall e, F2R 0 e = 0%R) by (intros; unfold F2R; lra).
    rewrite Hz in H3. lra.
  - by destruct (_ <=? _).
  - apply F2R_pos_inv in Hpos as Hp. 
    assert (0 < Zneg p2); [|lia]. eapply F2R_pos_inv. 
    eapply Rlt_le_trans; [apply Hpos|apply H3].
Qed.

(** *** Results are numbers of the format *)

(** after [shr_fexp] the mantissa is zero or canonical *)
Lemma truncation_canonical M E :
  E <= fexp prec emax (Zpos (digits2_pos M) + E) ->
  let k := Z.max 0 (fexp prec emax (Zpos (digits2_pos M) + E) - E) in
  Zpos M / 2 ^ k = 0 /\ E + k = emin prec emax
  \/ exists p, Zpos M / 2 ^ k = Zpos p /\ fexp prec emax (Zpos (digits2_pos p) + (E + k)) = E + k.
Proof.
  intros HE k. assert (Hk : k = fexp prec emax (Zpos (digits2_pos M) + E) - E) by lia.
  assert (H2k : 0 < 2 ^ k) by (apply Z.pow_pos_nonneg; lia).
  pose proof (digits2_pos_bounds M) as [HMl HMu].
  destruct (Z.lt_ge_cases (Zpos M) (2 ^ k)) as [Hsmall|Hbig].
  - left. split; [apply Z.div_small; lia|].
    assert (Zpos (digits2_pos M) <= k) by by apply digits2_pos_le.
    unfold fexp in *. lia.
  - right.
    assert (Hkd : k < Zpos (digits2_pos M)).
    { destruct (Z.lt_ge_cases k (Zpos (digits2_pos M))); [done|].
      pose proof (Z.pow_le_mono_r 2 (Zpos (digits2_pos M)) k). lia. }
    assert (Hl : 2 ^ (Zpos (digits2_pos M) - k - 1) <= Zpos M / 2 ^ k).
    { apply Z.div_le_lower_bound; [done|]. rewrite <- Z.pow_add_r by lia.
      replace (k + (Zpos (digits2_pos M) - k - 1)) with (Zpos (digits2_pos M) - 1) by lia.
      done. }
    assert (Hu : Zpos M / 2 ^ k < 2 ^ (Zpos (digits2_pos M) - k)).
    { apply Z.div_lt_upper_bound; [done|]. rewrite <- Z.pow_add_r by lia.
      replace (k + (Zpos (digits2_pos M) - k)) with (Zpos (digits2_pos M)) by lia. done. }
    assert (Hq : 0 < Zpos M / 2 ^ k).
    { pose proof (Z.pow_pos_nonneg 2 (Zpos (digits2_pos M) - k - 1)). lia. }
    destruct (Zpos M / 2 ^ k) as [|p|p] eqn:Ep; [lia| |lia].
    exists p. split; [done|].
    rewrite (digits2_pos_unique p (Zpos (digits2_pos M) - k)) by done.
    replace (Zpos (digits2_pos M) - k + (E + k)) with (Zpos (digits2_pos M) + E) by lia. lia.
Qed.

Lemma binary_round_aux_valid s M E l :
  E <= fexp prec emax (Zpos (digits2_pos M) + E) ->
  valid_binary prec emax (binary_round_aux prec emax s (Zpos M) E l) = true.
Proof.
  intros HE. unfold binary_round_aux.
  destruct (shr_fexp_spec (Zpos M) E l) as (mrs1 & -> & Hm1); [lia|].
  simpl Zdigits2 in *.
  set (e1 := E + Z.max 0 (fexp prec emax (Zpos (digits2_pos M) + E) - E)) in *.
  set (m1 := round_nearest_even (shr_m mrs1) (loc_of_shr_record mrs1)).
  pose proof (round_nearest_even_bounds (shr_m mrs1) (loc_of_shr_record mrs1)) as Hr.
  fold m1 in Hr.
  assert (Hm1' : 0 <= shr_m mrs1).
  { rewrite Hm1. apply Z.div_pos; [lia|]. apply Z.pow_pos_nonneg; lia. }
  assert (Hpre : m1 = 0 \/ exists p1, m1 = Zpos p1
                             /\ e1 <= fexp prec emax (Zpos (digits2_pos p1) + e1)).
  { destruct m1 as [|p1|p1] eqn:Em1; [by left| |lia]. right. exists p1. split; [done|].
    pose proof (truncation_canonical M E HE) as Htc. cbv zeta in Htc.
    rewrite <- Hm1 in Htc. fold e1 in Htc.
    destruct Htc as [[Hz He]|(p & Hp & Hc)].
    - rewrite He. apply fexp_emin.
    - rewrite <- Hc at 1. apply fexp_mono.
      assert (Zpos (digits2_pos p) <= Zpos (digits2_pos p1)); [|lia].
      apply digits2_pos_mono. lia. }
  destruct Hpre as [->|(p1 & -> & Hpre)].
  - destruct (shr_fexp_spec 0 e1 loc_Exact) as (mrs2 & -> & Hm2); [lia|].
    rewrite Z.div_0_l in Hm2 by (apply Z.pow_nonzero; lia). by rewrite Hm2.
  - destruct (shr_fexp_spec (Zpos p1) e1 loc_Exact) as (mrs2 & -> & Hm2); [lia|].
    simpl Zdigits2 in *.
    pose proof (truncation_canonical p1 e1 Hpre) as Htc. cbv zeta in Htc.
    rewrite <- Hm2 in Htc.
    destruct Htc as [[Hz He]|(p & Hp & Hc)].
    + by rewrite Hz.
    + rewrite Hp.
      destruct (_ <=? _) eqn:Hle; [|done]. simpl. unfold bounded, canonical_mantissa.
      by rewrite Hc, Z.eqb_refl, Hle.
Qed.

(** *** [binary_normalize] *)

Lemma iter_xO m d : Zpos (Pos.iter xO m d) = Zpos m * 2 ^ Zpos d.
Proof.
  induction d as [|d IH] using Pos.peano_ind.
  - simpl. lia.
  - rewrite Pos.iter_succ, Pos2Z.inj_xO, IH, Pos2Z.inj_succ, Z.pow_succ_r by lia. lia.
Qed.

Lemma shl_align_spec m e e' :
  let '(mz, ez) := shl_align m e e' in
  F2R (Zpos mz) ez = F2R (Zpos m) e
  /\ ez <= e'
  /\ Zpos (digits2_pos mz) + ez = Zpos (digits2_pos m) + e.
Proof.
  unfold shl_align. destruct (e' - e) as [|d|d] eqn:Hd; [split; [done|lia]..|].
  rewrite iter_xO. split; [|split; [lia|]].
  - replace e' with (e - Zpos d) by lia. by apply F2R_shift.
  - pose proof (digits2_pos_bounds m) as [Hl Hu].
    assert (H2 : 0 < 2 ^ Zpos d) by (apply Z.pow_pos_nonneg; lia).
    assert (Hdig : Zpos (digits2_pos (Pos.iter xO m d)) = Zpos (digits2_pos m) + Zpos d).
    { apply digits2_pos_unique. rewrite iter_xO.
      replace (Zpos (digits2_pos m) + Zpos d - 1) with ((Zpos (digits2_pos m) - 1) + Zpos d) by lia.
      rewrite !Z.pow_add_r by lia. nia. }
    lia.
Qed.

Lemma binary_round_valid s m e : valid_binary prec emax (binary_round prec emax s m e) = true.
Proof.
  unfold binary_round.
  pose proof (shl_align_spec m e (fexp prec emax (Zpos (digits2_pos m) + e))) as H.
  destruct (shl_align _ _ _) as [mz ez]. destruct H as (_ & Hle & Hd).
  apply binary_round_aux_valid. by rewrite Hd.
Qed.

Lemma binary_normalize_valid m e s :
  valid_binary prec emax (binary_normalize prec emax m e s) = true.
Proof. destruct m; [done|apply binary_round_valid..]. Qed.

Lemma binary_normalize_at_least M E mr er :
  emin prec emax <= er -> Zpos (digits2_pos mr) <= prec ->
  (F2R (Zpos mr) er <= F2R (Zpos M) E)%R ->
  at_least (binary_normalize prec emax (Zpos M) E false) (F2R (Zpos mr) er).
Proof.
  intros Her Hmr Hle. unfold binary_normalize, binary_round.
  pose proof (shl_align_spec M E (fexp prec emax (Zpos (digits2_pos M) + E))) as H.
  destruct (shl_align _ _ _) as [mz ez]. destruct H as (Hv & _).
  apply binary_round_aux_at_least; [done..|]. by rewrite Hv.
Qed.

(** *** Comparison of numbers of the format *)

Lemma canonical_exponent_lt m1 e1 m2 e2 :
  canonical_mantissa prec emax m1 e1 = true ->
  canonical_mantissa prec emax m2 e2 = true ->
  e1 < e2 -> (F2R (Zpos m1) e1 < F2R (Zpos m2) e2)%R.
Proof.
  unfold canonical_mantissa. intros H1%Z.eqb_eq H2%Z.eqb_eq Hlt.
  pose proof (digits2_pos_bounds m1) as [_ Hu1].
  pose proof (digits2_pos_bounds m2) as [Hl2 _].
  assert (Hd1 : Zpos (digits2_pos m1) <= prec) by (unfold fexp in *; lia).
  assert (Hd2 : Zpos (digits2_pos m2) = prec) by (unfold fexp, emin in *; lia).
  rewrite Hd2 in Hl2.
  assert (Hm1 : Zpos m1 + 1 <= 2 ^ prec).
  { pose proof (Z.pow_le_mono_r 2 (Zpos (digits2_pos m1)) prec). lia. }
  apply (F2R_le_mantissa _ _ e1) in Hm1. apply (F2R_le_mantissa _ _ e2) in Hl2.
  rewrite F2R_pow2 in Hm1, Hl2 by lia.
  pose proof (bpow_le (prec + e1) (prec - 1 + e2) ltac:(lia)).
  assert (F2R (Zpos m1) e1 < F2R (Zpos m1 + 1) e1)%R.
  { unfold F2R. rewrite plus_IZR. pose proof (bpow_pos e1). lra. }
  lra.
Qed.

Lemma SFltb_of_lt m1 e1 m2 e2 :
  canonical_mantissa prec emax m1 e1 = true ->
  canonical_mantissa prec emax m2 e2 = true ->
  (F2R (Zpos m1) e1 < F2R (Zpos m2) e2)%R ->
  SFltb (S754_finite false m1 e1) (S754_finite false m2 e2) = true.
Proof.
  intros H1 H2 Hlt. unfold SFltb, SFcompare.
  destruct (Z.compare_spec e1 e2) as [->|He|He].
  - apply F2R_lt_inv in Hlt.
    change (Pos.compare_cont Eq m1 m2) with (Pos.compare m1 m2).
    by rewrite (proj2 (Pos.compare_lt_iff m1 m2) Hlt).
  - done.
  - pose proof (canonical_exponent_lt m2 e2 m1 e1 H2 H1 He). lra.
Qed.

Lemma le_of_SFleb m1 e1 m2 e2 :
  canonical_mantissa prec emax m1 e1 = true ->
  canonical_mantissa prec emax m2 e2 = true ->
  SFleb (S754_finite false m1 e1) (S754_finite false m2 e2) = true ->
  (F2R (Zpos m1) e1 <= F2R (Zpos m2) e2)%R.
Proof.
  intros H1 H2. unfold SFleb, SFcompare.
  destruct (Z.compare_spec e1 e2) as [->|He|He].
  - change (Pos.compare_cont Eq m1 m2) with (Pos.compare m1 m2).
    destruct (Pos.compare_spec m1 m2) as [->|Hm|Hm]; intros Hc;
      [apply Rle_refl|apply F2R_le_mantissa; lia|done].
  - intros _. pose proof (canonical_exponent_lt m1 e1 m2 e2 H1 H2 He). lra.
  - done.
Qed.
End Rounding.

(** *** Operations on numbers bounded from below *)

Section Bounds.
Local Open Scope Z_scope.
Variables prec emax : Z.
Hypothesis Hprec : 0 < prec.

Lemma F2R_mul m1 e1 m2 e2 : F2R (m1 * m2) (e1 + e2) = (F2R m1 e1 * F2R m2 e2)%R.
Proof. unfold F2R. rewrite mult_IZR, bpow_add. lra. Qed.

Lemma F2R_add m1 m2 e : F2R (m1 + m2) e = (F2R m1 e + F2R m2 e)%R.
Proof. unfold F2R. rewrite plus_IZR. lra. Qed.

Lemma F2R_one : F2R 1 0 = 1%R.
Proof. unfold F2R, bpow. simpl. lra. Qed.

Lemma F2R_pow2_neg k : 0 <= k -> F2R (2 ^ k) (- k) = 1%R.
Proof.
  intros Hk. rewrite <- F2R_one, <- (F2R_shift 1 0 k) by done. f_equal; lia.
Qed.

Lemma SFmul_at_least x y rx ry mr er :
  at_least x rx -> at_least y ry -> (0 < rx)%R -> (0 < ry)%R ->
  emin prec emax <= er -> Zpos (digits2_pos mr) <= prec ->
  (F2R (Zpos mr) er <= rx * ry)%R ->
  at_least (SFmul prec emax x y) (F2R (Zpos mr) er).
Proof.
  intros Hx Hy Hrx Hry Her Hmr Hle.
  destruct x as [[]|[]| |[] mx ex], y as [[]|[]| |[] my ey]; try done.
  unfold SFmul. simpl xorb. simpl in Hx, Hy.
  apply binary_round_aux_at_least; [done..|].
  rewrite Pos2Z.inj_mul, F2R_mul. nra.
Qed.

Lemma shl_align_min m e e' :
  e' <= e -> snd (shl_align m e e') = e'.
Proof.
  intros Hle. unfold shl_align. destruct (e' - e) as [|d|d] eqn:Hd; simpl; lia.
Qed.

Lemma shl_align_value m e e' :
  F2R (Zpos (fst (shl_align m e e'))) (snd (shl_align m e e')) = F2R (Zpos m) e.
Proof.
  pose proof (shl_align_spec m e e') as H. destruct (shl_align m e e'). apply H.
Qed.

Lemma SFadd_at_least x y rx ry mr er :
  at_least x rx -> at_least y ry ->
  emin prec emax <= er -> Zpos (digits2_pos mr) <= prec ->
  (F2R (Zpos mr) er <= rx + ry)%R ->
  at_least (SFadd prec emax x y) (F2R (Zpos mr) er).
Proof.
  intros Hx Hy Her Hmr Hle.
  destruct x as [[]|[]| |[] mx ex], y as [[]|[]| |[] my ey]; try done.
  unfold SFadd. simpl cond_Zopp. simpl in Hx, Hy.
  rewrite <- Pos2Z.inj_add.
  apply binary_normalize_at_least; [done..|].
  rewrite Pos2Z.inj_add, F2R_add.
  pose proof (shl_align_value mx ex (Z.min ex ey)) as H1.
  pose proof (shl_align_value my ey (Z.min ex ey)) as H2.
  rewrite shl_align_min in H1, H2 by lia. rewrite H1, H2. lra.
Qed.

(** conversion into the format *)
Lemma round_at_least x rx mr er :
  at_least x rx ->
  emin prec emax <= er -> Zpos (digits2_pos mr) <= prec ->
  (F2R (Zpos mr) er <= rx)%R ->
  at_least (match x with
            | S754_finite s m e => binary_normalize prec emax (cond_Zopp s (Zpos m)) e s
            | _ => x
            end) (F2R (Zpos mr) er).
Proof.
  intros Hx Her Hmr Hle. destruct x as [[]|[]| |[] m e]; try done.
  simpl in Hx. apply binary_normalize_at_least; [done..|]. simpl. lra.
Qed.

Lemma round_valid x :
  valid_binary prec emax
    (match x with
     | S754_finite s m e => binary_normalize prec emax (cond_Zopp s (Zpos m)) e s
     | _ => x
     end) = true.
Proof. destruct x; try done. by apply binary_normalize_valid. Qed.

Lemma SFsub_valid x y :
  valid_binary prec emax x = true -> valid_binary prec emax y = true ->
  valid_binary prec emax (SFsub prec emax x y) = true.
Proof.
  intros Hx Hy. destruct x as [sx|sx| |sx mx ex], y as [sy|sy| |sy my ey];
    try done; try (by destruct sx, sy).
  apply binary_normalize_valid; done.
Qed.
End Bounds.

(** *** Growth of the mass *)

Section Growth.
Local Open Scope Z_scope.

Lemma positive_normal_inv m :
  positive_normal Float.prec Float.emax m = true ->
  exists mm me, m = S754_finite false mm me
                /\ Zpos (digits2_pos mm) = 24
                /\ canonical_mantissa 24 128 mm me = true
                /\ -149 <= me.
Proof.
  unfold positive_normal. intros [Hv Hc]%andb_true_iff.
  destruct m as [[]|[]| |[] mm me]; try done; unfold SFclassify in Hc.
  - by destruct (_ =? _).
  - destruct (Z.eqb_spec (Zpos (digits2_pos mm)) Float.prec) as [Hd|]; [|done].
    exists mm, me. unfold valid_binary, bounded in Hv.
    apply andb_true_iff in Hv as [Hcan _]. repeat split; try done.
    unfold canonical_mantissa in Hcan. apply Z.eqb_eq in Hcan.
    unfold fexp, emin, Float.prec, Float.emax in *. lia.
Qed.

(** the successor of a normal mantissa, as a number of the format *)
Lemma next_mantissa mm me :
  Zpos (digits2_pos mm) = 24 ->
  exists mr er, F2R (Zpos mr) er = F2R (Zpos mm + 1) me
                /\ me <= er /\ Zpos (digits2_pos mr) <= 24.
Proof.
  intros Hd. pose proof (digits2_pos_bounds mm) as [Hl Hu]. rewrite Hd in Hl, Hu.
  destruct (Z.eq_dec (Zpos mm + 1) (2 ^ 24)) as [He|Hne].
  - exists 8388608%positive, (me + 1). split; [|split; [lia|done]].
    rewrite He. rewrite <- (F2R_shift 8388608 (me + 1) 1) by lia.
    f_equal. lia.
  - exists (mm + 1)%positive, me. split; [by rewrite Pos2Z.inj_add|]. split; [lia|].
    apply digits2_pos_le. rewrite Pos2Z.inj_add. lia.
Qed.

(** C8, the arithmetic: a positive normal mass is strictly larger after
    the growth step whenever the frame time is at least [2^-23]. *)
Lemma grown_mass_increases dt m :
  positive_normal Float.prec Float.emax m = true ->
  Float.valid dt = true ->
  Float.leb min_step dt = true ->
  Float.ltb m (grown_mass dt m) = true.
Proof.
  intros Hm Hdt Hle.
  destruct (positive_normal_inv m Hm) as (mm & me & -> & Hd & Hcan & Hme).
  pose proof (digits2_pos_bounds mm) as [Hl Hu]. rewrite Hd in Hl, Hu.
  assert (Hp53 : 0 < 53) by done. assert (Hp24 : 0 < 24) by done.
  (* the frame time as a double *)
  assert (HD : at_least (Double.round dt) (F2R 1 (-23))).
  { destruct dt as [[]|[]| |[] md ed]; try done.
    apply (round_at_least 53 1024 Hp53 (S754_finite false md ed) (F2R (Zpos md) ed) 1 (-23));
      [simpl; lra|done|done|].
    rewrite <- (F2R_shift 1 (-23) 23) by lia.
    apply (le_of_SFleb 24 128 Hp24); [done| |done].
    unfold Float.valid in Hdt. simpl in Hdt. unfold bounded in Hdt.
    by apply andb_true_iff in Hdt as [? _]. }
  assert (Hone : at_least (Double.of_Z 1) 1).
  { change (Double.of_Z 1) with (S754_finite false 4503599627370496 (-52)). simpl.
    change (F2R 4503599627370496 (-52)) with (F2R (2 ^ 52) (- 52)).
    rewrite F2R_pow2_neg by lia. lra. }
  assert (Hr23 : (0 < F2R 1 (-23))%R) by apply F2R_pos.
  (* 1.0 * deltaTime *)
  assert (HT : at_least (Double.mul (Double.of_Z 1) (Double.round dt)) (F2R 1 (-23))).
  { apply (SFmul_at_least 53 1024 Hp53 _ _ 1 (F2R 1 (-23))); try done; lra. }
  (* 1.0 + 1.0 * deltaTime *)
  assert (HF : at_least (Double.add (Double.of_Z 1)
                           (Double.mul (Double.of_Z 1) (Double.round dt)))
                        (F2R 8388609 (-23))).
  { apply (SFadd_at_least 53 1024 Hp53 _ _ 1 (F2R 1 (-23))); try done.
    change 8388609 with (2 ^ 23 + 1). rewrite F2R_add.
    change (F2R (2 ^ 23) (-23)) with (F2R (2 ^ 23) (- 23)).
    rewrite F2R_pow2_neg by lia. lra. }
  (* the mass as a double *)
  assert (HM : at_least (Double.round (S754_finite false mm me)) (F2R (Zpos mm) me)).
  { apply (round_at_least 53 1024 Hp53 (S754_finite false mm me) (F2R (Zpos mm) me) mm me);
      [simpl; lra|unfold emin; lia|lia|lra]. }
  (* the product *)
  assert (HP : at_least (Double.mul (Double.round (S754_finite false mm me))
                           (Double.add (Double.of_Z 1)
                              (Double.mul (Double.of_Z 1) (Double.round dt))))
                        (F2R (Zpos (mm * 8388609)) (me + -23))).
  { apply (SFmul_at_least 53 1024 Hp53 _ _ (F2R (Zpos mm) me) (F2R 8388609 (-23)));
      try done; try apply F2R_pos.
    - unfold emin. lia.
    - assert (Zpos (digits2_pos (mm * 8388609)) <= 48); [|lia].
      apply digits2_pos_le. rewrite Pos2Z.inj_mul. lia.
    - rewrite Pos2Z.inj_mul, F2R_mul. lra. }
  (* back to float *)
  destruct (next_mantissa mm me Hd) as (mr & er & Hv & Her & Hmr).
  assert (Hnext : (F2R (Zpos mr) er <= F2R (Zpos (mm * 8388609)) (me + -23))%R).
  { rewrite Hv. rewrite <- (F2R_shift (Zpos mm + 1) me 23) by lia.
    replace (me - 23) with (me + -23) by lia.
    apply F2R_le_mantissa. rewrite Pos2Z.inj_mul. lia. }
  assert (HR : at_least (grown_mass dt (S754_finite false mm me)) (F2R (Zpos mr) er)).
  { apply (round_at_least 24 128 Hp24 _ _ mr er HP); [unfold emin; lia|done|done]. }
  assert (Hvalid : Float.valid (grown_mass dt (S754_finite false mm me)) = true).
  { apply (round_valid 24 128 Hp24). }
  destruct (grown_mass dt (S754_finite false mm me)) as [[]|[]| |[] mR eR]; try done.
  simpl in HR. apply (SFltb_of_lt 24 128 Hp24); [done| |].
  - unfold Float.valid in Hvalid. simpl in Hvalid. unfold bounded in Hvalid.
    by apply andb_true_iff in Hvalid as [? _].
  - assert (F2R (Zpos mm) me < F2R (Zpos mm + 1) me)%R; [|lra].
    unfold F2R. rewrite plus_IZR. pose proof (bpow_pos me). lra.
Qed.
End Growth.

(** *** The loops over the body vector *)

Section Loops.
Variable pow : double -> double -> double.
Variable powf : float -> float -> float.
Variable sin : double -> double.
Variable cos : double -> double.

Lemma admitted_self i o o2 : admitted i i o o2 = false.
Proof. unfold admitted. by rewrite Nat.eqb_refl. Qed.

Lemma innerStep_insert paused i v o j :
  i < length v ->
  innerStep powf paused i (<[i:=o]> v) j = <[i := partnerStep powf paused i v o j]> v.
Proof.
  intros Hi. unfold innerStep, partnerStep.
  rewrite list_lookup_insert_eq by done.
  destruct (decide (j = i)) as [->|Hne].
  - rewrite list_lookup_insert_eq by done. rewrite admitted_self.
    destruct (lookup_lt_is_Some_2 v i Hi) as [x ->]. by rewrite admitted_self.
  - rewrite list_lookup_insert_ne by done.
    destruct (v !! j) as [obj2|]; [|done].
    destruct (admitted i j o obj2); [|done].
    by rewrite list_insert_insert_eq.
Qed.

Lemma inner_loop_insert paused i v js : 
  i < length v -> forall o,
  foldl (innerStep powf paused i) (<[i:=o]> v) js
  = <[i := foldl (partnerStep powf paused i v) o js]> v.
Proof.
  intros Hi. induction js as [|j js IH]; intros o; simpl; [done|].
  rewrite innerStep_insert by done. apply IH.
Qed.

(** the inner loop only rewrites body [i] *)
Lemma inner_loop paused i v obj js :
  v !! i = Some obj ->
  foldl (innerStep powf paused i) v js
  = <[i := foldl (partnerStep powf paused i v) obj js]> v.
Proof.
  intros Hi. rewrite <- (list_insert_id v i obj Hi) at 1.
  apply inner_loop_insert. by eapply lookup_lt_Some.
Qed.

(** one iteration of the outer loop replaces body [i] and nothing else *)
Lemma bodyStep_eq paused v i obj :
  v !! i = Some obj ->
  bodyStep pow powf sin cos paused v i
  = <[i := move pow paused (initRadius pow sin cos
             (foldl (partnerStep powf paused i v) obj (seq 0 (length v))))]> v.
Proof.
  intros Hi. unfold bodyStep. rewrite (inner_loop _ _ _ _ _ Hi).
  apply list_eq. intros k. destruct (decide (k = i)) as [->|Hne].
  - rewrite list_lookup_alter_eq.
    rewrite !list_lookup_insert_eq by by eapply lookup_lt_Some. done.
  - rewrite list_lookup_alter_ne by done. by rewrite !list_lookup_insert_ne.
Qed.

Lemma bodyStep_out paused v i :
  length v <= i -> bodyStep pow powf sin cos paused v i = v.
Proof.
  intros Hi. unfold bodyStep.
  assert (Hin : forall js, foldl (innerStep powf paused i) v js = v).
  { induction js as [|j js IH]; simpl; [done|].
    unfold innerStep at 2. by rewrite (lookup_ge_None_2 v i Hi). }
  rewrite Hin. apply list_eq. intros k.
  rewrite list_lookup_alter. destruct (decide (i = k)) as [->|]; [|done].
  by rewrite (lookup_ge_None_2 v k Hi).
Qed.

Lemma bodyStep_length paused v i :
  length (bodyStep pow powf sin cos paused v i) = length v.
Proof.
  destruct (v !! i) as [obj|] eqn:Hi.
  - rewrite (bodyStep_eq _ _ _ _ Hi). apply length_insert.
  - by rewrite bodyStep_out by by apply lookup_ge_None_1.
Qed.

Lemma bodyStep_other paused v i k :
  k <> i -> bodyStep pow powf sin cos paused v i !! k = v !! k.
Proof.
  intros Hne. destruct (v !! i) as [obj|] eqn:Hi.
  - rewrite (bodyStep_eq _ _ _ _ Hi). by apply list_lookup_insert_ne.
  - by rewrite bodyStep_out by by apply lookup_ge_None_1.
Qed.

Lemma outer_loop_length paused js v :
  length (foldl (bodyStep pow powf sin cos paused) v js) = length v.
Proof.
  revert v. induction js as [|j js IH]; intros v; simpl; [done|].
  by rewrite IH, bodyStep_length.
Qed.

(** bodies outside the range of indices processed are untouched *)
Lemma outer_loop_other paused js v k :
  k ∉ js -> foldl (bodyStep pow powf sin cos paused) v js !! k = v !! k.
Proof.
  revert v. induction js as [|j js IH]; intros v Hk; simpl; [done|].
  rewrite IH by (intros ?; apply Hk; by right).
  apply bodyStep_other. intros ->. apply Hk. by left.
Qed.

Lemma reached_lookup paused v i : reached pow powf sin cos paused v i !! i = v !! i.
Proof.
  unfold reached. apply outer_loop_other.
  rewrite list_elem_of_In, in_seq. lia.
Qed.

(** body [i] at the end of the frame is what its own iteration left *)
Lemma physics_lookup paused v i obj :
  v !! i = Some obj ->
  physics pow powf sin cos paused v !! i
  = Some (move pow paused (initRadius pow sin cos
            (foldl (partnerStep powf paused i (reached pow powf sin cos paused v i)) obj
                   (seq 0 (length v))))).
Proof.
  intros Hi. assert (Hlen : i < length v) by by eapply lookup_lt_Some.
  unfold physics.
  replace (length v) with (i + S (length v - S i)) at 1 by lia.
  rewrite seq_app, foldl_app. simpl.
  rewrite outer_loop_other by (rewrite list_elem_of_In, in_seq; lia).
  fold (reached pow powf sin cos paused v i).
  assert (Hr : reached pow powf sin cos paused v i !! i = Some obj)
    by by rewrite reached_lookup.
  rewrite (bodyStep_eq _ _ _ _ Hr).
  rewrite list_lookup_insert_eq by by eapply lookup_lt_Some.
  unfold reached at 2. by rewrite outer_loop_length.
Qed.

(** *** What the steps leave alone *)

Lemma pairStep_fields paused o o2 :
  let o' := pairStep powf paused o o2 in
  position o' = position o /\ Initalizing o' = Initalizing o /\ Launched o' = Launched o /\
  mass o' = mass o /\ density o' = density o /\ radius o' = radius o /\ vbo o' = vbo o.
Proof.
  unfold pairStep, damp, kick, accelerate.
  destruct (Float.gtb _ _), paused; simpl; done.
Qed.

Lemma finish_fields paused o :
  let o' := move pow paused (initRadius pow sin cos o) in
  Initalizing o' = Initalizing o /\ Launched o' = Launched o /\ mass o' = mass o /\
  density o' = density o /\ velocity o' = velocity o.
Proof.
  unfold move, initRadius, UpdatePos, UpdateVertices.
  destruct paused, (Initalizing o) eqn:E; simpl; done.
Qed.

Lemma partner_fold_preserves {A} (f : Object -> A) paused i v :
  (forall o o2, f (pairStep powf paused o o2) = f o) ->
  forall js o, f (foldl (partnerStep powf paused i v) o js) = f o.
Proof.
  intros Hf. induction js as [|j js IH]; intros o; simpl; [done|].
  rewrite IH. unfold partnerStep.
  destruct (v !! j) as [obj2|]; [|done]. destruct (admitted _ _ _ _); [apply Hf|done].
Qed.

(** a field that neither a pair step nor the end of an iteration changes
    is left alone by the loop over the bodies *)
Lemma outer_loop_preserves {A} (f : Object -> A) paused :
  (forall o o2, f (pairStep powf paused o o2) = f o) ->
  (forall o, f (move pow paused (initRadius pow sin cos o)) = f o) ->
  forall js v, f <$> foldl (bodyStep pow powf sin cos paused) v js = f <$> v.
Proof.
  intros Hp Hm. induction js as [|j js IH]; intros v; simpl; [done|].
  rewrite IH. destruct (v !! j) as [obj|] eqn:Hj.
  - rewrite (bodyStep_eq _ _ _ _ Hj), list_fmap_insert, Hm.
    rewrite (partner_fold_preserves f) by done.
    apply list_insert_id. by rewrite list_lookup_fmap, Hj.
  - by rewrite bodyStep_out by by apply lookup_ge_None_1.
Qed.

Lemma physics_preserves {A} (f : Object -> A) paused v :
  (forall o o2, f (pairStep powf paused o o2) = f o) ->
  (forall o, f (move pow paused (initRadius pow sin cos o)) = f o) ->
  f <$> physics pow powf sin cos paused v = f <$> v.
Proof. intros. by apply outer_loop_preserves. Qed.

Lemma physics_mass paused v : mass <$> physics pow powf sin cos paused v = mass <$> v.
Proof.
  apply physics_preserves; intros.
  - apply pairStep_fields. - apply finish_fields.
Qed.

Lemma physics_Initalizing paused v :
  Initalizing <$> physics pow powf sin cos paused v = Initalizing <$> v.
Proof.
  apply physics_preserves; intros.
  - apply pairStep_fields. - apply finish_fields.
Qed.

(** while paused no position changes *)
Lemma paused_physics_position v :
  position <$> physics pow powf sin cos true v = position <$> v.
Proof.
  apply physics_preserves; intros.
  - apply pairStep_fields.
  - unfold move, initRadius. by destruct (Initalizing o).
Qed.

Lemma pairStep_shape paused o o2 : shape (pairStep powf paused o o2) = shape o.
Proof.
  unfold shape. destruct (pairStep_fields paused o o2) as (-> & -> & _ & _ & _ & -> & _). done.
Qed.

Lemma paused_reached_shape v i :
  shape <$> reached pow powf sin cos true v i = shape <$> v.
Proof.
  unfold reached. apply outer_loop_preserves; intros.
  - apply pairStep_shape.
  - unfold move, initRadius, shape. by destruct (Initalizing o) eqn:E; simpl; rewrite ?E.
Qed.

(** *** The velocity of a body through its inner loop *)

Lemma set_velocity_id o : set_velocity (velocity o) o = o.
Proof. by destruct o. Qed.

Lemma pairStep_velocity paused obj vel obj2 :
  pairStep powf paused (set_velocity vel obj) obj2
  = set_velocity (if Float.gtb (separation obj obj2) Float.zero
                  then pairVelocity powf paused obj vel obj2 else vel) obj.
Proof.
  unfold pairStep.
  change (separation (set_velocity vel obj) obj2) with (separation obj obj2).
  destruct (Float.gtb (separation obj obj2) Float.zero); [|done].
  unfold pairVelocity, damp. by destruct paused.
Qed.

Lemma partnerStep_velocity paused i v obj vel j :
  partnerStep powf paused i v (set_velocity vel obj) j
  = set_velocity
      (match v !! j with
       | Some obj2 =>
           if admitted i j obj obj2 && Float.gtb (separation obj obj2) Float.zero
           then pairVelocity powf paused obj vel obj2 else vel
       | None => vel
       end) obj.
Proof.
  unfold partnerStep. destruct (v !! j) as [obj2|]; [|done].
  change (admitted i j (set_velocity vel obj) obj2) with (admitted i j obj obj2).
  destruct (admitted i j obj obj2); [|done]. apply pairStep_velocity.
Qed.

Lemma partner_fold_velocity paused i v obj rest : forall j vel,
  drop j v = rest ->
  foldl (partnerStep powf paused i v) (set_velocity vel obj) (seq j (length rest))
  = set_velocity (foldl (pairVelocity powf paused obj) vel (partners_from i j obj rest)) obj.
Proof.
  induction rest as [|obj2 rest IH]; intros j vel Hd; simpl; [done|].
  assert (Hj : v !! j = Some obj2).
  { rewrite <- (Nat.add_0_r j), <- lookup_drop, Hd. done. }
  assert (Hd' : drop (S j) v = rest).
  { rewrite (drop_S _ _ _ Hj) in Hd. by injection Hd. }
  rewrite partnerStep_velocity, Hj, (IH _ _ Hd'), foldl_app.
  by destruct (admitted i j obj obj2 && Float.gtb (separation obj obj2) Float.zero).
Qed.

(** the velocity of body [i] at the end of the frame: one application of
    [pairVelocity] for each partner met, in order *)
Lemma physics_velocity paused v i obj :
  v !! i = Some obj ->
  velocity <$> physics pow powf sin cos paused v !! i
  = Some (foldl (pairVelocity powf paused obj) (velocity obj)
                (partners (reached pow powf sin cos paused v i) i obj)).
Proof.
  intros Hi. rewrite (physics_lookup _ _ _ _ Hi). simpl. f_equal.
  destruct (finish_fields paused
    (foldl (partnerStep powf paused i (reached pow powf sin cos paused v i)) obj
       (seq 0 (length v)))) as (_ & _ & _ & _ & ->).
  pose proof (partner_fold_velocity paused i (reached pow powf sin cos paused v i) obj
                _ 0 (velocity obj) eq_refl) as H.
  rewrite set_velocity_id, drop_0 in H.
  replace (length (reached pow powf sin cos paused v i)) with (length v) in H
    by (symmetry; apply outer_loop_length).
  by rewrite H.
Qed.

(** the partners met and their factors depend on the other bodies through
    their [shape] only *)
Lemma partners_shape obj i vel : forall v v' j,
  shape <$> v' = shape <$> v ->
  foldl (pairVelocity powf true obj) vel (partners_from i j obj v')
  = foldl (pairVelocity powf true obj) vel (partners_from i j obj v).
Proof.
  intros v. revert vel. induction v as [|o2 v IH]; intros vel v' j Hs.
  - by destruct v'.
  - destruct v' as [|o2' v']; [done|]. rewrite !fmap_cons in Hs. unfold shape at 1 2 in Hs. injection Hs as Hp Hi Hr Hv.
    simpl. rewrite !foldl_app.
    assert (Ha : admitted i j obj o2' = admitted i j obj o2)
      by (unfold admitted; by rewrite Hi).
    assert (Hsep : separation obj o2' = separation obj o2)
      by (unfold separation, GetPos; by rewrite Hp).
    rewrite Ha, Hsep.
    destruct (admitted i j obj o2) eqn:Ea; simpl; [|by apply IH].
    destruct (Float.gtb (separation obj o2) Float.zero); simpl; [|by apply IH].
    assert (Hpv : pairVelocity powf true obj vel o2' = pairVelocity powf true obj vel o2).
    { unfold pairVelocity, kick, CheckCollision, overlapping, collision_distance.
      unfold admitted in Ea. rewrite Hi in Hr.
      destruct (Initalizing o2); [by rewrite !andb_false_r in Ea|].
      by rewrite Hp, Hr. }
    rewrite Hpv. by apply IH.
Qed.

Lemma foldl_const_iter {A B} (g : A -> A) (f : A -> B -> A) (l : list B) :
  (forall a b, b ∈ l -> f a b = g a) ->
  forall a, foldl f a l = Nat.iter (length l) g a.
Proof.
  induction l as [|b l IH]; intros Hf a; simpl; [done|].
  rewrite IH by (intros; apply Hf; by right).
  rewrite (Hf a b) by by left.
  clear. induction (length l) as [|n IHn]; simpl; [done|]. by rewrite IHn.
Qed.

End Loops.

(** *** The pause key *)

Lemma last_index_lt {A} (l : list A) :
  l <> [] -> (0 <= last_index l < Z.of_nat (length l))%Z.
Proof.
  intros Hl. unfold last_index, size_t_sub.
  assert (0 < length l) by (destruct l; simpl; [done|lia]).
  pose proof (Z.mod_pos_bound (Z.of_nat (length l) - 1) (2 ^ 64) eq_refl).
  pose proof (Z.mod_le (Z.of_nat (length l) - 1) (2 ^ 64)). lia.
Qed.

Lemma vec_get_last {A} (l : list A) : l <> [] -> is_Some (vec_get l (last_index l)).
Proof.
  intros Hl. pose proof (last_index_lt l Hl). unfold vec_get.
  destruct (Z.leb_spec (Z.of_nat (length l)) (last_index l)); [lia|].
  apply lookup_lt_is_Some_2. lia.
Qed.

Lemma vec_update_last {A} (l : list A) f :
  l <> [] -> exists l', vec_update l (last_index l) f = Some l' /\ l' <> [].
Proof.
  intros Hl. unfold vec_update. destruct (vec_get_last l Hl) as [x ->].
  eexists; split; [done|]. intros E. apply (f_equal length) in E.
  rewrite length_insert in E. by destruct l.
Qed.

(** C10. A keyboard event handled on a non-empty body vector is processed
    to the end and leaves the pause flag equal to the state of the K key:
    set while K is held, cleared otherwise, whatever it was before. *)
Theorem pause_follows_K_key held key action shiftPressed st :
  objs st <> [] ->
  exists st', keyCallback held key action shiftPressed st = Some st'
              /\ pause st' = held KEY_K.
Proof.
  intros Hne. unfold keyCallback.
  destruct (vec_get_last _ Hne) as [x Hx]. rewrite Hx.
  set (st1 := if held KEY_K then set_pause true st else st).
  set (st2 := if negb (held KEY_K) then set_pause false st1 else st1).
  set (st3 := if held KEY_Q then set_running false st2 else st2).
  assert (Hobjs : objs st3 = objs st).
  { unfold st3, st2, st1. by destruct (held KEY_K), (held KEY_Q). }
  assert (Hp : pause st3 = held KEY_K).
  { unfold st3, st2, st1. by destruct (held KEY_K), (held KEY_Q). }
  rewrite Hobjs. destruct (objs st) as [|o l] eqn:E; [done|].
  rewrite Hx. destruct (Initalizing x).
  - destruct (vec_update_last (o :: l) (positioning key action shiftPressed) Hne)
      as (l' & -> & _).
    simpl. eexists; split; [done|]. done.
  - by eexists.
Qed.

(** *** Radius, growth and the two-body frame *)

Section Frames.
Variable pow : double -> double -> double.
Variable powf : float -> float -> float.
Variable sin : double -> double.
Variable cos : double -> double.
Variable abs : float -> float.

(** C3 (amended). The radius is [cuberoot(3 mass / (4 pi density))] divided
    by a scale that depends on the phase.  The constructor and the growth
    step divide by [sizeRatio]; so does every frame that runs, for every
    body and its current mass.  A paused frame leaves a body under
    construction with the value divided by 1000000 and any other body with
    the radius it had; and in every frame the mesh of a body under
    construction is regenerated from the value divided by 1000000. *)
Theorem radius_scale_by_phase paused v i obj :
  v !! i = Some obj ->
  (forall p vel m d g,
      radius (new_Object pow sin cos p vel m d g) = radius_of pow (Double.round sizeRatio) m d)
  /\ (forall dt o, radius (grow pow sin cos dt o)
                   = radius_grow pow (grown_mass dt (mass o)) (density o))
  /\ exists obj',
      physics pow powf sin cos paused v !! i = Some obj'
      /\ mass obj' = mass obj /\ density obj' = density obj
      /\ radius obj'
         = (if paused
            then if Initalizing obj
                 then radius_of pow (Double.of_Z 1000000) (mass obj) (density obj)
                 else radius obj
            else radius_of pow (Double.round sizeRatio) (mass obj) (density obj))
      /\ vbo obj'
         = (if Initalizing obj
            then Draw sin cos (radius_of pow (Double.of_Z 1000000) (mass obj) (density obj))
            else vbo obj).
Proof.
  intros Hi. split; [done|]. split; [done|].
  eexists. split; [by apply physics_lookup|].
  set (o := foldl _ obj _).
  assert (Hf : Initalizing o = Initalizing obj /\ mass o = mass obj /\
               density o = density obj /\ radius o = radius obj /\ vbo o = vbo obj).
  { unfold o. repeat split;
      (rewrite (partner_fold_preserves powf); [done|]; intros; apply pairStep_fields). }
  destruct Hf as (HI & Hm & Hd & Hr & Hv).
  unfold move, initRadius, UpdatePos, UpdateVertices. rewrite HI.
  destruct paused, (Initalizing obj); simpl; rewrite ?Hm, ?Hd, ?Hr, ?Hv; done.
Qed.

(** the loop over a vector of two bodies not under construction, running:
    body 0 meets body 1 and is moved at once, body 1 then meets the moved
    body 0 *)
Lemma two_body_loop a b :
  Initalizing a = false -> Initalizing b = false ->
  let a' := UpdatePos pow (pairStep powf false a b) in
  physics pow powf sin cos false [a; b]
  = [a'; UpdatePos pow (pairStep powf false b a')].
Proof.
  intros Ha Hb a'. unfold physics. simpl.
  assert (Ha' : Initalizing a' = false).
  { unfold a', UpdatePos. simpl.
    destruct (pairStep_fields powf false a b) as (_ & -> & _). done. }
  assert (Ea : a' = UpdatePos pow (pairStep powf false a b)) by done.
  clearbody a'.
  assert (H0 : bodyStep pow powf sin cos false [a; b] 0 = [a'; b]).
  { rewrite Ea. rewrite (bodyStep_eq pow powf sin cos false [a; b] 0 a eq_refl). simpl.
    assert (E0 : partnerStep powf false 0 [a; b] a 0 = a) by done.
    assert (E1 : partnerStep powf false 0 [a; b] a 1 = pairStep powf false a b).
    { unfold partnerStep, admitted. simpl. by rewrite Ha, Hb. }
    rewrite E0, E1. unfold initRadius.
    destruct (pairStep_fields powf false a b) as (_ & -> & _). by rewrite Ha. }
  rewrite H0.
  rewrite (bodyStep_eq pow powf sin cos false [a'; b] 1 b eq_refl). simpl.
  assert (E0 : partnerStep powf false 1 [a'; b] b 0 = pairStep powf false b a').
  { unfold partnerStep, admitted. simpl. by rewrite Ha', Hb. }
  rewrite E0.
  assert (E1 : forall o, partnerStep powf false 1 [a'; b] o 1 = o).
  { intros o. unfold partnerStep, admitted. by simpl. }
  rewrite E1. unfold initRadius.
  destruct (pairStep_fields powf false b a') as (_ & -> & _). by rewrite Hb.
Qed.

(** *** The frame as a whole *)

Lemma grown_last dt v o :
  last v = Some o -> Initalizing o = true ->
  growth pow sin cos dt true v = <[pred (length v) := grow pow sin cos dt o]> v.
Proof. intros Hl Ho. unfold growth. by rewrite Hl, Ho. Qed.

Lemma growth_released dt rightDown v i obj :
  v !! i = Some obj -> Initalizing obj = false ->
  growth pow sin cos dt rightDown v !! i = Some obj.
Proof.
  intros Hi Ho. unfold growth. destruct (last v) as [o|] eqn:Hl; [|done].
  destruct (Initalizing o && rightDown) eqn:E; [|done].
  rewrite last_lookup in Hl.
  destruct (decide (i = pred (length v))) as [->|Hne].
  - rewrite Hi in Hl. injection Hl as ->. by rewrite Ho in E.
  - by rewrite list_lookup_insert_ne.
Qed.

(** a body that is not under construction keeps its mass through a frame *)
Lemma frame_mass_released now rightDown st i obj :
  objs st !! i = Some obj -> Initalizing obj = false ->
  mass <$> objs (frame pow powf sin cos abs now rightDown st) !! i = Some (mass obj).
Proof.
  intros Hi Ho. unfold frame. simpl.
  rewrite <- list_lookup_fmap, physics_mass, list_lookup_fmap.
  by rewrite (growth_released _ _ _ _ _ Hi Ho).
Qed.

(** the growth step of a frame, followed through the rest of the frame *)
Lemma frame_grows now st o :
  last (objs st) = Some o -> Initalizing o = true ->
  exists o',
    last (objs (frame pow powf sin cos abs now true st)) = Some o'
    /\ mass o' = grown_mass (Float.sub now (lastFrame st)) (mass o)
    /\ density o' = density o
    /\ radius o' = radius_of pow (if pause st then Double.of_Z 1000000
                                  else Double.round sizeRatio) (mass o') (density o')
    /\ vbo o' = Draw sin cos (radius_of pow (Double.of_Z 1000000) (mass o') (density o')).
Proof.
  intros Hl Ho. unfold frame. simpl.
  rewrite (grown_last _ _ _ Hl Ho).
  set (dt := Float.sub now (lastFrame st)).
  set (v1 := <[pred (length (objs st)) := grow pow sin cos dt o]> (objs st)).
  assert (Hlen : pred (length (objs st)) < length (objs st)).
  { rewrite last_lookup in Hl. by eapply lookup_lt_Some. }
  assert (H1 : v1 !! pred (length (objs st)) = Some (grow pow sin cos dt o))
    by by apply list_lookup_insert_eq.
  destruct (radius_scale_by_phase (pause st) v1 _ _ H1)
    as (_ & _ & o' & Ho' & Hm & Hd & Hr & Hv).
  exists o'. rewrite last_lookup.
  unfold physics at 1. rewrite outer_loop_length. unfold v1 at 1.
  rewrite length_insert. split; [done|].
  change (Initalizing (grow pow sin cos dt o)) with (Initalizing o) in Hr, Hv.
  rewrite Ho in Hr, Hv. rewrite Hm, Hd. repeat split; [done..| |done].
  rewrite Hr. by destruct (pause st).
Qed.

(** C8 (amended). While the newest body is under construction and the
    grow button is held, a frame replaces its mass by
    [mass * (1 + 1 * dt)], [dt] the measured frame time, computed in
    [double] and rounded to [float]; the radius is recomputed from the new
    mass and the mesh regenerated in that frame.  The new mass is strictly
    larger whenever the mass is a positive normal [float] and [dt] is at
    least [2^-23] (with [dt = 0], which the [float] clock produces, it is
    not).  A body that is not under construction keeps its mass in every
    frame. *)
Theorem growth_while_creating now st :
  (forall o,
      last (objs st) = Some o -> Initalizing o = true ->
      exists o',
        last (objs (frame pow powf sin cos abs now true st)) = Some o'
        /\ mass o' = grown_mass (Float.sub now (lastFrame st)) (mass o)
        /\ radius o' = radius_of pow (if pause st then Double.of_Z 1000000
                                      else Double.round sizeRatio) (mass o') (density o')
        /\ vbo o' = Draw sin cos (radius_of pow (Double.of_Z 1000000) (mass o') (density o'))
        /\ (positive_normal Float.prec Float.emax (mass o) = true ->
            Float.valid now = true -> Float.valid (lastFrame st) = true ->
            Float.leb min_step (Float.sub now (lastFrame st)) = true ->
            Float.ltb (mass o) (mass o') = true))
  /\ (forall rightDown i obj,
        objs st !! i = Some obj -> Initalizing obj = false ->
        mass <$> objs (frame pow powf sin cos abs now rightDown st) !! i = Some (mass obj)).
Proof.
  split.
  - intros o Hl Ho.
    destruct (frame_grows now st o Hl Ho) as (o' & H1 & H2 & H3 & H4 & H5).
    exists o'. repeat split; try done.
    intros Hn Hv1 Hv2 Hle. rewrite H2. apply grown_mass_increases; [done| |done].
    by apply (SFsub_valid 24 128).
  - intros. by apply frame_mass_released.
Qed.

(** *** The grid *)

Lemma depth_nan p obj :
  Double.ltb (sqrt_arg p obj) Double.zero = true -> depth p obj = S754_nan.
Proof.
  intros H. unfold depth, Double.sqrt.
  rewrite (SFsqrt_negative _ _ _ H). unfold Double.mul. by rewrite SFmul_nan_r.
Qed.

Lemma totalDisplacementY_nan p v obj :
  obj ∈ v -> depth p obj = S754_nan -> totalDisplacementY p v = S754_nan.
Proof.
  intros Hin Hd. unfold totalDisplacementY.
  set (f := fun acc o => Float.add acc (Float.mul (depth p o) (Float.of_Z 2))).
  assert (Hnan : forall l, foldl f S754_nan l = S754_nan).
  { induction l as [|o l IH]; [done|]. apply IH. }
  generalize Float.zero. induction Hin as [obj v|obj o v Hin IH]; intros acc.
  - change (foldl f (f acc obj) v = S754_nan).
    replace (f acc obj) with S754_nan; [apply Hnan|].
    unfold f, Float.mul, Float.add. by rewrite Hd, SFmul_nan_l, SFadd_nan_r.
  - by apply IH.
Qed.

Lemma warp_lookup shift v : forall k vs x y z,
  vs !! (3 * k) = Some x -> vs !! (3 * k + 1) = Some y -> vs !! (3 * k + 2) = Some z ->
  warp abs shift v vs !! (3 * k + 1)
  = Some (Float.add (totalDisplacementY (Vec3 x y z) v) (Float.opp (abs shift))).
Proof.
  induction k as [|k IH]; intros vs x y z Hx Hy Hz.
  - destruct vs as [|x0 [|y0 [|z0 rest]]]; try done.
    simpl in *. by injection Hx as ->; injection Hy as ->; injection Hz as ->.
  - replace (3 * S k) with (S (S (S (3 * k)))) in * by lia.
    destruct vs as [|x0 [|y0 [|z0 rest]]]; try done.
    simpl in *. by apply IH.
Qed.

(** C2 (amended). The code has no clamp.  Whenever the argument
    [rs * (distance_m - rs)] of the square root is negative for some body
    (the case [distance_m < rs]), that body's depth is NaN and NaN is what
    [UpdateGridVertices] writes into the vertex. *)
Theorem negative_depth_writes_nan vertices v k x y z obj :
  vertices !! (3 * k) = Some x -> vertices !! (3 * k + 1) = Some y ->
  vertices !! (3 * k + 2) = Some z ->
  obj ∈ v ->
  Double.ltb (sqrt_arg (Vec3 x y z) obj) Double.zero = true ->
  depth (Vec3 x y z) obj = S754_nan
  /\ UpdateGridVertices abs vertices v !! (3 * k + 1) = Some S754_nan.
Proof.
  intros Hx Hy Hz Hin Hneg.
  pose proof (depth_nan _ _ Hneg) as Hd. split; [done|].
  unfold UpdateGridVertices. rewrite (warp_lookup _ _ _ _ _ _ _ Hx Hy Hz).
  rewrite (totalDisplacementY_nan _ _ _ Hin Hd). done.
Qed.
End Frames.

(** *** Concrete runs *)

Example damping_value : damping = S754_finite true 13421773 (-26).
Proof. reflexivity. Qed.

Example clicked_is_left_press :
  Run.mouseButtonCallback MOUSE_BUTTON_LEFT PRESS Run.empty_sim = Some Run.clicked
  /\ objs Run.clicked = [Run.created].
Proof. split; by vm_compute. Qed.

(** while paused the frame moves no body *)
Lemma paused_frame_keeps_positions pow powf sin cos abs now rightDown st :
  pause st = true ->
  position <$> objs (frame pow powf sin cos abs now rightDown st) = position <$> objs st.
Proof.
  intros Hp. unfold frame. simpl. rewrite Hp, paused_physics_position.
  unfold growth. destruct (last (objs st)) as [o|] eqn:Hl; [|done].
  destruct (Initalizing o && rightDown); [|done].
  rewrite list_fmap_insert. apply list_insert_id.
  rewrite list_lookup_fmap. rewrite last_lookup in Hl. by rewrite Hl.
Qed.

(** C1. The code at the failing input: a paused frame on two overlapping
    planets.  The pause flag is set, yet the velocity of the first planet,
    (0, 0, 1500) before the frame, is (-0, -0, -300) after it: collision
    damping is applied although the simulation is paused. *)
Theorem paused_frame_damps_velocity now rightDown :
  pause (Run.overlapping_pair true) = true
  /\ velocity <$> objs (Run.overlapping_pair true) !! 0
     = Some (Vec3 Float.zero Float.zero (Float.of_Z 1500))
  /\ velocity <$> objs (Run.frame now rightDown (Run.overlapping_pair true)) !! 0
     = Some (Vec3 (S754_zero true) (S754_zero true) (Float.of_Z (-300))).
Proof. repeat split; by vm_compute. Qed.

(** C2, counterexample.  The grid vertex at the origin and the body a left
    click creates there: the vertex is inside the body's Schwarzschild
    radius ([distance_m = 0 < rs]), the body's depth is NaN, not zero, and
    NaN is written into the vertex. *)
Lemma body_on_vertex_writes_nan :
  Float.ltb (distance_m vec3_zero Run.created) (schwarzschild Run.created) = true
  /\ depth vec3_zero Run.created = S754_nan
  /\ Run.UpdateGridVertices Run.vertex_at_origin [Run.created]
     = [Float.zero; S754_nan; Float.zero].
Proof. repeat split; by vm_compute. Qed.

Lemma negative_depth_writes_nan_witness :
  Run.UpdateGridVertices Run.vertex_at_origin [Run.created] !! 1 = Some S754_nan.
Proof.
  refine (proj2 (negative_depth_writes_nan LibM.abs_int Run.vertex_at_origin [Run.created] 0
            Float.zero Float.zero Float.zero Run.created eq_refl eq_refl eq_refl _ _)).
  - apply list_elem_of_here.
  - by vm_compute.
Defined.

(** C3, counterexample.  The body under construction after one paused
    frame: its radius is the cube root divided by 1000000, which is not the
    cube root divided by [sizeRatio]. *)
Lemma creating_radius_not_sizeRatio :
  exists obj',
    objs (Run.frame (Float.of_dec 1 60) false Run.clicked) = [obj']
    /\ Initalizing obj' = true
    /\ radius obj' = radius_of LibM.pow (Double.of_Z 1000000) (mass obj') (density obj')
    /\ radius obj' <> radius_of LibM.pow (Double.round sizeRatio) (mass obj') (density obj').
Proof.
  eexists. split; [by vm_compute|]. repeat split; by vm_compute.
Qed.

Lemma radius_scale_by_phase_witness :
  exists obj',
    Run.physics true [Run.created] !! 0 = Some obj'
    /\ radius obj'
       = radius_of LibM.pow (Double.of_Z 1000000) (mass Run.created) (density Run.created).
Proof.
  destruct (radius_scale_by_phase LibM.pow LibM.powf LibM.sin LibM.cos true
              [Run.created] 0 Run.created eq_refl) as (_ & _ & obj' & H1 & _ & _ & H2 & _).
  exists obj'. split; [exact H1 | exact H2].
Defined.

(** The handlers themselves have no guard: on the empty body vector (the
    state of the globals before [main] fills [objs], which no event ever
    meets) every keyboard event indexes [objs[objs.size() - 1]], and so does
    the release of the left mouse button; both are out of range. *)
Lemma empty_registry_indexed_out_of_range held key action shiftPressed :
  objs Run.empty_sim = []
  /\ last_index (objs Run.empty_sim) = (2 ^ 64 - 1)%Z
  /\ keyCallback held key action shiftPressed Run.empty_sim = None
  /\ Run.mouseButtonCallback MOUSE_BUTTON_LEFT RELEASE Run.empty_sim = None.
Proof. repeat split; by vm_compute. Qed.


(** C7. The code at the failing input: a grid of one vertex above a star.
    Recomputing the grid from the buffer the first recomputation produced,
    with the same body, gives another buffer (the vertex is at about 43.6
    after the first pass and at about 100.6 after the second). *)
Theorem grid_update_not_idempotent :
  Run.UpdateGridVertices Run.vertex_above [Run.star_a]
  = [Float.zero; S754_finite false 11433057 (-18); Float.zero]
  /\ Run.UpdateGridVertices (Run.UpdateGridVertices Run.vertex_above [Run.star_a]) [Run.star_a]
     = [Float.zero; S754_finite false 13182860 (-17); Float.zero]
  /\ Run.UpdateGridVertices (Run.UpdateGridVertices Run.vertex_above [Run.star_a]) [Run.star_a]
     <> Run.UpdateGridVertices Run.vertex_above [Run.star_a].
Proof. repeat split; by vm_compute. Qed.

(** the same with the [float] overload of [abs] *)
Lemma grid_update_not_idempotent_fabs :
  UpdateGridVertices LibM.abs_float
    (UpdateGridVertices LibM.abs_float Run.vertex_above [Run.star_a]) [Run.star_a]
  <> UpdateGridVertices LibM.abs_float Run.vertex_above [Run.star_a].
Proof. by vm_compute. Qed.

Lemma pause_follows_K_key_witness :
  exists st', keyCallback Run.no_key KEY_OTHER PRESS false Run.clicked = Some st'
              /\ pause st' = false.
Proof.
  apply (pause_follows_K_key Run.no_key KEY_OTHER PRESS false Run.clicked).
  discriminate.
Defined.

(** C8, counterexample.  The body under construction with the grow button
    held, in a frame that reads the same [float] time as the frame before:
    [deltaTime] is 0 and the mass after the frame is the mass before it. *)
Lemma growth_stalls_on_equal_times :
  last (objs Run.growing_late) = Some Run.created
  /\ Initalizing Run.created = true
  /\ lastFrame Run.growing_late = Run.late_clock
  /\ exists o',
      last (objs (Run.frame Run.late_clock true Run.growing_late)) = Some o'
      /\ mass o' = mass Run.created
      /\ Float.ltb (mass Run.created) (mass o') = false.
Proof.
  repeat split; try by vm_compute.
  eexists. split; [by vm_compute|]. split; by vm_compute.
Qed.

Lemma growth_while_creating_witness :
  exists o',
    last (objs (Run.frame (Float.of_dec 1 60) true Run.clicked)) = Some o'
    /\ Float.ltb (mass Run.created) (mass o') = true.
Proof.
  destruct (proj1 (growth_while_creating LibM.pow LibM.powf LibM.sin LibM.cos LibM.abs_int
                     (Float.of_dec 1 60) Run.clicked) Run.created eq_refl eq_refl)
    as (o' & H1 & _ & _ & _ & H5).
  exists o'. split; [exact H1|].
  apply H5; by vm_compute.
Defined.

(** * Further properties of the code *)

(** ** What a frame keeps *)

Section Registry.
Variable pow : double -> double -> double.
Variable powf : float -> float -> float.
Variable sin : double -> double.
Variable cos : double -> double.
Variable abs : float -> float.

Lemma growth_preserves {A} (f : Object -> A) dt rightDown v :
  (forall o, f (grow pow sin cos dt o) = f o) ->
  f <$> growth pow sin cos dt rightDown v = f <$> v.
Proof.
  intros Hf. unfold growth. destruct (last v) as [o|] eqn:Hl; [|done].
  destruct (Initalizing o && rightDown); [|done].
  rewrite list_fmap_insert, Hf. apply list_insert_id.
  rewrite list_lookup_fmap. rewrite last_lookup in Hl. by rewrite Hl.
Qed.

Lemma frame_preserves {A} (f : Object -> A) now rightDown st :
  (forall dt o, f (grow pow sin cos dt o) = f o) ->
  (forall o o2, f (pairStep powf (pause st) o o2) = f o) ->
  (forall o, f (move pow (pause st) (initRadius pow sin cos o)) = f o) ->
  f <$> objs (frame pow powf sin cos abs now rightDown st) = f <$> objs st.
Proof.
  intros Hg Hp Hm. unfold frame. simpl.
  rewrite (physics_preserves pow powf sin cos f) by done.
  by apply growth_preserves.
Qed.

Lemma pairStep_glow paused o o2 : glow (pairStep powf paused o o2) = glow o.
Proof.
  unfold pairStep, damp, kick, accelerate.
  destruct (Float.gtb _ _), paused; simpl; done.
Qed.

Lemma finish_glow paused o : glow (move pow paused (initRadius pow sin cos o)) = glow o.
Proof.
  unfold move, initRadius, UpdatePos, UpdateVertices.
  destruct paused, (Initalizing o); simpl; done.
Qed.

Lemma frame_length now rightDown st :
  length (objs (frame pow powf sin cos abs now rightDown st)) = length (objs st).
Proof.
  pose proof (frame_preserves Initalizing now rightDown st) as HI.
  rewrite <- (length_fmap Initalizing), HI, length_fmap; [done|done| |]; intros.
  - apply pairStep_fields.
  - apply finish_fields.
Qed.

(** X1. A frame neither adds nor removes a body, and it changes no body's
    construction flag, launch flag, density or glow; the loop flag and the
    pause flag are left as they were. *)
Theorem frame_keeps_registry now rightDown st :
  length (objs (frame pow powf sin cos abs now rightDown st)) = length (objs st)
  /\ Initalizing <$> objs (frame pow powf sin cos abs now rightDown st)
     = Initalizing <$> objs st
  /\ Launched <$> objs (frame pow powf sin cos abs now rightDown st) = Launched <$> objs st
  /\ density <$> objs (frame pow powf sin cos abs now rightDown st) = density <$> objs st
  /\ glow <$> objs (frame pow powf sin cos abs now rightDown st) = glow <$> objs st
  /\ running (frame pow powf sin cos abs now rightDown st) = running st
  /\ pause (frame pow powf sin cos abs now rightDown st) = pause st.
Proof.
  split; [apply frame_length|]. repeat split.
  - apply frame_preserves; intros; [done|apply pairStep_fields|apply finish_fields].
  - apply frame_preserves; intros; [done|apply pairStep_fields|apply finish_fields].
  - apply frame_preserves; intros; [done|apply pairStep_fields|apply finish_fields].
  - apply frame_preserves; intros; [done|apply pairStep_glow|apply finish_glow].
Qed.

(** X2. While the pause flag is set a frame moves no body, whatever the
    mouse button does. *)
Theorem paused_frame_freezes_positions now rightDown st :
  pause st = true ->
  position <$> objs (frame pow powf sin cos abs now rightDown st) = position <$> objs st.
Proof.
  intros Hp. apply frame_preserves; intros; [done|apply pairStep_fields|].
  rewrite Hp. unfold move, initRadius. by destruct (Initalizing o).
Qed.

Lemma partners_from_creating i obj : forall rest j,
  Initalizing obj = true -> partners_from i j obj rest = [].
Proof.
  induction rest as [|o2 rest IH]; intros j Ho; simpl; [done|].
  rewrite (IH _ Ho). unfold admitted. rewrite Ho.
  by rewrite andb_false_r.
Qed.

Lemma growth_lookup {A} (f : Object -> A) dt rightDown v i o :
  (forall o, f (grow pow sin cos dt o) = f o) ->
  v !! i = Some o ->
  exists o1, growth pow sin cos dt rightDown v !! i = Some o1 /\ f o1 = f o.
Proof.
  intros Hf Hi.
  pose proof (growth_preserves f dt rightDown v Hf) as E.
  apply (f_equal (fun l => l !! i)) in E. rewrite !list_lookup_fmap, Hi in E.
  destruct (growth pow sin cos dt rightDown v !! i) as [o1|]; [|done].
  exists o1. split; [done|]. simpl in E. by injection E.
Qed.

(** X3. A body under construction takes no part in the pair loop: a frame,
    paused or not, leaves its velocity as it was. *)
Theorem creating_body_keeps_velocity now rightDown st i o :
  objs st !! i = Some o -> Initalizing o = true ->
  velocity <$> objs (frame pow powf sin cos abs now rightDown st) !! i
  = Some (velocity o).
Proof.
  intros Hi Ho. unfold frame. simpl.
  destruct (growth_lookup (fun o => (velocity o, Initalizing o))
              (Float.sub now (lastFrame st)) rightDown _ _ _ ltac:(done) Hi)
    as (o1 & H1 & E).
  injection E as Ev EI.
  rewrite (physics_velocity pow powf sin cos _ _ _ _ H1).
  unfold partners. rewrite partners_from_creating by congruence.
  simpl. by rewrite Ev.
Qed.

(** X4. In a running frame every body is moved with the velocity it has
    at the end of its pair loop (not the one it entered the frame with):
    the new position is the old one plus the new velocity divided by 94,
    component by component. *)
Theorem running_frame_moves_by_new_velocity now rightDown st i o :
  pause st = false -> objs st !! i = Some o ->
  exists o',
    objs (frame pow powf sin cos abs now rightDown st) !! i = Some o'
    /\ position o'
       = Vec3 (Float.add (vx (position o)) (Float.div (vx (velocity o')) (Float.of_Z 94)))
              (Float.add (vy (position o)) (Float.div (vy (velocity o')) (Float.of_Z 94)))
              (Float.add (vz (position o)) (Float.div (vz (velocity o')) (Float.of_Z 94))).
Proof.
  intros Hp Hi. unfold frame. simpl. rewrite Hp.
  destruct (growth_lookup position (Float.sub now (lastFrame st)) rightDown _ _ _
              ltac:(done) Hi) as (o1 & H1 & E).
  rewrite (physics_lookup pow powf sin cos _ _ _ _ H1).
  eexists. split; [done|].
  set (o2 := foldl _ o1 _).
  assert (E2 : position o2 = position o1).
  { apply (partner_fold_preserves powf position). intros. apply pairStep_fields. }
  unfold move, UpdatePos, initRadius.
  destruct (Initalizing o2); simpl; by rewrite E2, E.
Qed.
End Registry.

(** ** Multiplying by one *)

Section Exact.
Local Open Scope Z_scope.
Variables prec emax : Z.
Hypothesis Hprec : 0 < prec.

Lemma shr_1_even M :
  0 <= M ->
  shr_1 {| shr_m := 2 * M; shr_r := false; shr_s := false |}
  = {| shr_m := M; shr_r := false; shr_s := false |}.
Proof. intros HM. destruct M as [|p|p]; [done|done|lia]. Qed.

(** shifting out zero bits loses nothing *)
Lemma iter_shr_exact p : forall M,
  0 <= M ->
  SpecFloat.iter_pos shr_1 p {| shr_m := M * 2 ^ Zpos p; shr_r := false; shr_s := false |}
  = {| shr_m := M; shr_r := false; shr_s := false |}.
Proof.
  induction p as [p IH|p IH|]; intros M HM; cbn [SpecFloat.iter_pos].
  - replace (M * 2 ^ Zpos p~1) with (2 * ((M * 2 ^ Zpos p) * 2 ^ Zpos p)).
    + rewrite shr_1_even by lia. rewrite IH by lia. by apply IH.
    + rewrite (Pos2Z.inj_xI p), Z.pow_add_r, Z.pow_mul_r by lia.
      change (2 ^ 2) with 4. rewrite Z.pow_1_r.
      replace (4 ^ Zpos p) with (2 ^ Zpos p * 2 ^ Zpos p); [lia|].
      rewrite <- Z.pow_mul_l. done.
  - replace (M * 2 ^ Zpos p~0) with ((M * 2 ^ Zpos p) * 2 ^ Zpos p).
    + rewrite IH by lia. by apply IH.
    + rewrite (Pos2Z.inj_xO p), Z.pow_mul_r by lia.
      change (2 ^ 2) with 4.
      replace (4 ^ Zpos p) with (2 ^ Zpos p * 2 ^ Zpos p); [lia|].
      rewrite <- Z.pow_mul_l. done.
  - replace (M * 2 ^ 1) with (2 * M) by lia. by apply shr_1_even.
Qed.

(** a number of the format, written with [k] more bits, is rounded to
    itself *)
Lemma binary_round_aux_exact s m e k :
  canonical_mantissa prec emax m e = true -> e <= emax - prec -> 0 <= k ->
  binary_round_aux prec emax s (Zpos m * 2 ^ k) (e - k) loc_Exact = S754_finite s m e.
Proof.
  intros Hcan Hb Hk. unfold canonical_mantissa in Hcan. apply Z.eqb_eq in Hcan.
  assert (Hpos : 0 < Zpos m * 2 ^ k) by (pose proof (Z.pow_pos_nonneg 2 k); lia).
  destruct (Zpos m * 2 ^ k) as [|q|q] eqn:Hq; [lia| |lia].
  assert (Hd : Zpos (digits2_pos q) = Zpos (digits2_pos m) + k).
  { apply digits2_pos_unique. rewrite <- Hq.
    pose proof (digits2_pos_bounds m) as [Hl Hu].
    replace (Zpos (digits2_pos m) + k - 1) with ((Zpos (digits2_pos m) - 1) + k) by lia.
    rewrite !Z.pow_add_r by lia.
    pose proof (Z.pow_pos_nonneg 2 k). nia. }
  assert (H1 : shr_fexp prec emax (Zpos q) (e - k) loc_Exact
               = ({| shr_m := Zpos m; shr_r := false; shr_s := false |}, e)).
  { unfold shr_fexp, shr. simpl Zdigits2. rewrite Hd.
    replace (Zpos (digits2_pos m) + k + (e - k)) with (Zpos (digits2_pos m) + e) by lia.
    rewrite Hcan. replace (e - (e - k)) with k by lia.
    destruct k as [|p|p]; [| |lia].
    - simpl. f_equal; [|lia]. f_equal. lia.
    - rewrite <- Hq. simpl shr_record_of_loc. rewrite iter_shr_exact by lia.
      f_equal. lia. }
  assert (H2 : shr_fexp prec emax (Zpos m) e loc_Exact
               = ({| shr_m := Zpos m; shr_r := false; shr_s := false |}, e)).
  { unfold shr_fexp, shr. simpl Zdigits2. rewrite Hcan, Z.sub_diag. done. }
  unfold binary_round_aux. rewrite H1. simpl loc_of_shr_record. simpl round_nearest_even.
  rewrite H2. simpl shr_m.
  destruct (Z.leb_spec e (emax - prec)); [done|lia].
Qed.
End Exact.

(** [x * 1.0f] is [x] *)
Lemma Float_mul_one x : Float.valid x = true -> Float.mul x (Float.of_Z 1) = x.
Proof.
  intros Hv. change (Float.of_Z 1) with (S754_finite false 8388608 (-23)).
  destruct x as [[]|[]| |s m e]; try done.
  unfold Float.valid in Hv. simpl in Hv. unfold bounded in Hv.
  apply andb_true_iff in Hv as [Hcan Hb]. apply Z.leb_le in Hb.
  unfold Float.mul, SFmul.
  replace (Zpos (m * 8388608)) with (Zpos m * 2 ^ 23)%Z by (rewrite Pos2Z.inj_mul; done).
  replace (e + -23)%Z with (e - 23)%Z by lia.
  rewrite (binary_round_aux_exact Float.prec Float.emax) by done.
  by destruct s.
Qed.

Section Overlap.
Variable pow : double -> double -> double.
Variable powf : float -> float -> float.
Variable sin : double -> double.
Variable cos : double -> double.
Variable abs : float -> float.

Lemma growth_shape dt rightDown v :
  shape <$> growth pow sin cos dt rightDown v = shape <$> v.
Proof.
  unfold growth. destruct (last v) as [o|] eqn:Hl; [|done].
  destruct (Initalizing o) eqn:Ho; [|done]. destruct rightDown; [|done]. simpl.
  rewrite list_fmap_insert.
  replace (shape (grow pow sin cos dt o)) with (shape o)
    by (unfold shape, grow, UpdateVertices; simpl; by rewrite Ho).
  apply list_insert_id.
  rewrite list_lookup_fmap. rewrite last_lookup in Hl. by rewrite Hl.
Qed.

Lemma partners_without_overlap i o vel : forall rest j,
  Float.valid (vx vel) = true -> Float.valid (vy vel) = true ->
  Float.valid (vz vel) = true ->
  (forall k o2, rest !! k = Some o2 -> j + k <> i -> Initalizing o2 = false ->
                overlapping powf o o2 = false) ->
  foldl (pairVelocity powf true o) vel (partners_from i j o rest) = vel.
Proof.
  induction rest as [|o2 rest IH]; intros j Hx Hy Hz Hov; simpl; [done|].
  rewrite foldl_app.
  assert (E : foldl (pairVelocity powf true o) vel
                (if admitted i j o o2 && Float.gtb (separation o o2) Float.zero
                 then [o2] else []) = vel).
  { destruct (admitted i j o o2 && Float.gtb (separation o o2) Float.zero) eqn:E; [|done].
    apply andb_true_iff in E as [Ha _]. unfold admitted in Ha.
    apply andb_true_iff in Ha as [Ha Hi2]. apply negb_true_iff in Hi2.
    apply andb_true_iff in Ha as [Hji _]. apply negb_true_iff, Nat.eqb_neq in Hji.
    simpl. unfold pairVelocity, CheckCollision, kick.
    rewrite (Hov 0 o2) by (done || lia).
    simpl. destruct vel as [x y z]. unfold vec3_scale. simpl in *.
    by rewrite !Float_mul_one. }
  rewrite E. apply IH; try done.
  intros k o3 Hk Hne. apply (Hov (S k)); [done|lia].
Qed.

(** X5. While the pause flag is set, a body not under construction that
    overlaps none of the other bodies not under construction leaves the
    frame with exactly the velocity it had: the only thing a paused frame
    does to a velocity is the damping of overlapping pairs. *)
Theorem paused_frame_without_overlap_keeps_velocity now rightDown st i o :
  pause st = true -> objs st !! i = Some o -> Initalizing o = false ->
  Float.valid (vx (velocity o)) = true -> Float.valid (vy (velocity o)) = true ->
  Float.valid (vz (velocity o)) = true ->
  (forall j o2, j <> i -> objs st !! j = Some o2 -> Initalizing o2 = false ->
                overlapping powf o o2 = false) ->
  velocity <$> objs (frame pow powf sin cos abs now rightDown st) !! i
  = Some (velocity o).
Proof.
  intros Hp Hi Ho Hx Hy Hz Hov.
  unfold frame. simpl. rewrite Hp.
  set (dt := Float.sub now (lastFrame st)).
  pose proof (growth_released pow sin cos dt rightDown _ _ _ Hi Ho) as H1.
  rewrite (physics_velocity pow powf sin cos _ _ _ _ H1). f_equal.
  unfold partners.
  rewrite (partners_shape powf o i (velocity o) (objs st)).
  - apply partners_without_overlap; try done.
    intros k o2 Hk Hne. by apply (Hov k).
  - by rewrite paused_reached_shape, growth_shape.
Qed.
End Overlap.

(** ** Meshes and grids *)

Lemma flat_map_length_const {A B} (f : A -> list B) n l :
  (forall x, length (f x) = n) -> length (flat_map f l) = length l * n.
Proof.
  intros Hf. induction l as [|x l IH]; simpl; [done|].
  by rewrite length_app, Hf, IH.
Qed.

Lemma list_ind3 {A} (P : list A -> Prop) :
  P [] -> (forall x, P [x]) -> (forall x y, P [x; y]) ->
  (forall x y z l, P l -> P (x :: y :: z :: l)) -> forall l, P l.
Proof.
  intros H0 H1 H2 H3. fix IH 1.
  intros [|x [|y [|z l]]]; [apply H0|apply H1|apply H2|apply H3, IH].
Qed.

Lemma heights_segments {A} (f : A -> list float) y xs rest :
  (forall x, exists a b c d, f x = [a; y; b; c; y; d]) ->
  heights (flat_map f xs ++ rest) = replicate (2 * length xs) y ++ heights rest.
Proof.
  intros Hf. induction xs as [|x xs IH]; simpl; [done|].
  destruct (Hf x) as (a & b & c & d & ->). simpl. rewrite IH.
  by replace (length xs + S (length xs + 0)) with (S (2 * length xs)) by lia.
Qed.

Lemma heights_rows {A} (g : A -> list float) n y zs rest :
  (forall z rest', heights (g z ++ rest') = replicate n y ++ heights rest') ->
  heights (flat_map g zs ++ rest) = replicate (length zs * n) y ++ heights rest.
Proof.
  intros Hg. induction zs as [|z zs IH]; simpl; [done|].
  by rewrite <- app_assoc, Hg, IH, app_assoc, <- replicate_add.
Qed.

Section Meshes.
Variable pow : double -> double -> double.
Variable sin : double -> double.
Variable cos : double -> double.
Variable abs : float -> float.

Lemma Draw_length r : length (Draw sin cos r) = 1980.
Proof.
  unfold Draw. rewrite (flat_map_length_const _ 180); [by rewrite length_seq|].
  intros i. rewrite (flat_map_length_const _ 18); [by rewrite length_seq|].
  intros j. by rewrite !length_app.
Qed.

(** X6. Every mesh has 1980 floats (11 bands of 10 sectors, two triangles
    each), whatever the radius: the one the constructor builds, the one
    [UpdateVertices] regenerates and the one left by the growth step. *)
Theorem mesh_has_1980_floats r p v m d g dt o :
  length (Draw sin cos r) = 1980
  /\ length (vbo (new_Object pow sin cos p v m d g)) = 1980
  /\ length (vbo (UpdateVertices sin cos o)) = 1980
  /\ length (vbo (grow pow sin cos dt o)) = 1980.
Proof. repeat split; apply Draw_length. Qed.

Lemma flat_grid_length size divisions :
  length (CreateGridVertices size divisions) = 12 * divisions * S divisions.
Proof.
  unfold CreateGridVertices. rewrite length_app.
  rewrite !(flat_map_length_const _ (divisions * 6)), !length_seq; [lia| |].
  - intros x. by rewrite (flat_map_length_const _ 6), length_seq.
  - intros x. by rewrite (flat_map_length_const _ 6), length_seq.
Qed.

(** X7. The flat grid of [divisions] cells a side has
    [2 * divisions * (divisions + 1)] segments, that is
    [12 * divisions * (divisions + 1)] floats, and all its vertices lie
    at the same height [-halfSize * 0.3f + 3 * step]. *)
Theorem flat_grid_shape size divisions :
  length (CreateGridVertices size divisions) = 12 * divisions * S divisions
  /\ heights (CreateGridVertices size divisions)
     = replicate (4 * divisions * S divisions)
         (Float.add (Float.mul (Float.opp (Float.div size (Float.of_Z 2))) (Float.of_dec 3 10))
                    (Float.mul (Float.of_Z 3)
                               (Float.div size (Float.of_Z (Z.of_nat divisions))))).
Proof.
  split; [apply flat_grid_length|]. unfold CreateGridVertices.
  set (y := Float.add _ _).
  rewrite (heights_rows _ (2 * divisions) y).
  - rewrite <- (app_nil_r (flat_map _ _)).
    rewrite (heights_rows _ (2 * divisions) y).
    + rewrite !length_seq, app_nil_r, <- replicate_add. f_equal. lia.
    + intros x rest. rewrite (heights_segments _ y), length_seq; [done|].
      intros z. by do 4 eexists.
  - intros z rest. rewrite (heights_segments _ y), length_seq; [done|].
    intros x. by do 4 eexists.
Qed.

Lemma warp_length shift v : forall vs, length (warp abs shift v vs) = length vs.
Proof.
  induction vs as [| | |x y z vs IH] using list_ind3; simpl; try done. by rewrite IH.
Qed.

Lemma warp_keeps shift v : forall vs i,
  i mod 3 <> 1 -> warp abs shift v vs !! i = vs !! i.
Proof.
  induction vs as [| | |x y z vs IH] using list_ind3; intros i Hi; try done.
  destruct i as [|[|[|i]]]; simpl; try done.
  apply IH. intros E. apply Hi.
  replace (S (S (S i))) with (i + 1 * 3) by lia. by rewrite Nat.Div0.mod_add.
Qed.

(** X8. [UpdateGridVertices] keeps the number of floats and rewrites
    heights only: every [x] and every [z] entry of the buffer comes back
    as it went in. *)
Theorem grid_update_keeps_x_and_z vertices v :
  length (UpdateGridVertices abs vertices v) = length vertices
  /\ forall i, i mod 3 <> 1 -> UpdateGridVertices abs vertices v !! i = vertices !! i.
Proof.
  unfold UpdateGridVertices. split; [apply warp_length|]. intros i Hi. by apply warp_keeps.
Qed.
End Meshes.

(** *** The displaced grid of the variant *)

Lemma SFdiv_nan_l prec emax y : SFdiv prec emax S754_nan y = S754_nan.
Proof. by destruct y. Qed.

Lemma SFsub_nan_l prec emax y : SFsub prec emax S754_nan y = S754_nan.
Proof. by destruct y. Qed.

Lemma dip_nan p obj :
  Double.ltb (sqrt_arg p obj) Double.zero = true -> Gravity3D.dip p obj = S754_nan.
Proof.
  intros H. unfold Gravity3D.dip, Double.sqrt.
  rewrite (SFsqrt_negative _ _ _ H). unfold Double.mul.
  by rewrite SFmul_nan_r, SFmul_nan_l.
Qed.

Lemma totalDisplacement_nan p v obj :
  obj ∈ v -> Gravity3D.dip p obj = S754_nan ->
  vy (Gravity3D.totalDisplacement p v) = S754_nan.
Proof.
  intros Hin Hd. unfold Gravity3D.totalDisplacement.
  set (f := fun t o => Vec3 (Float.add (vx t) (Gravity3D.dip p o))
                            (Float.add (vy t) (Gravity3D.dip p o))
                            (Float.add (vz t) (Gravity3D.dip p o))).
  assert (Hnan : forall l t, vy t = S754_nan -> vy (foldl f t l) = S754_nan).
  { induction l as [|o l IH]; intros t Ht; [done|]. apply IH.
    unfold f. simpl. rewrite Ht. unfold Float.add. by rewrite SFadd_nan_l. }
  generalize vec3_zero. induction Hin as [obj v|obj o v Hin IH]; intros acc.
  - change (vy (foldl f (f acc obj) v) = S754_nan). apply Hnan.
    unfold f. simpl. rewrite Hd. unfold Float.add. by rewrite SFadd_nan_r.
  - by apply IH.
Qed.

Lemma distort_length v : forall vs, length (Gravity3D.distort v vs) = length vs.
Proof.
  induction vs as [| | |x y z vs IH] using list_ind3; simpl; try done. by rewrite IH.
Qed.

Lemma distort_keeps v : forall vs i,
  i mod 3 <> 1 -> Gravity3D.distort v vs !! i = vs !! i.
Proof.
  induction vs as [| | |x y z vs IH] using list_ind3; intros i Hi; try done.
  destruct i as [|[|[|i]]]; simpl; try done.
  apply IH. intros E. apply Hi.
  replace (S (S (S i))) with (i + 1 * 3) by lia. by rewrite Nat.Div0.mod_add.
Qed.

Lemma distort_lookup v : forall k vs x y z,
  vs !! (3 * k) = Some x -> vs !! (3 * k + 1) = Some y -> vs !! (3 * k + 2) = Some z ->
  Gravity3D.distort v vs !! (3 * k + 1)
  = Some (Float.sub (Float.div (Float.add y (vy (Gravity3D.totalDisplacement (Vec3 x y z) v)))
                               (Float.of_Z 15)) (Float.of_Z 3000)).
Proof.
  induction k as [|k IH]; intros vs x y z Hx Hy Hz.
  - destruct vs as [|x0 [|y0 [|z0 rest]]]; try done.
    simpl in *. by injection Hx as ->; injection Hy as ->; injection Hz as ->.
  - replace (3 * S k) with (S (S (S (3 * k)))) in * by lia.
    destruct vs as [|x0 [|y0 [|z0 rest]]]; try done.
    simpl in *. by apply IH.
Qed.

(** X9. The variant's [CreateGridVertices] returns the flat grid with the
    heights replaced: same number of floats, same [x] and [z] entries. *)
Theorem displaced_grid_keeps_x_and_z size divisions v :
  length (Gravity3D.CreateGridVertices size divisions v) = 12 * divisions * S divisions
  /\ forall i, i mod 3 <> 1 ->
       Gravity3D.CreateGridVertices size divisions v !! i
       = CreateGridVertices size divisions !! i.
Proof.
  unfold Gravity3D.CreateGridVertices. split.
  - rewrite distort_length. apply flat_grid_length.
  - intros i Hi. by apply distort_keeps.
Qed.

(** X10. The variant has no clamp either: a vertex of the flat grid for
    which the argument of the square root is negative for some body
    (the body is closer than its Schwarzschild radius) gets the height
    NaN. *)
Theorem displaced_grid_writes_nan size divisions v k x y z obj :
  CreateGridVertices size divisions !! (3 * k) = Some x ->
  CreateGridVertices size divisions !! (3 * k + 1) = Some y ->
  CreateGridVertices size divisions !! (3 * k + 2) = Some z ->
  obj ∈ v ->
  Double.ltb (sqrt_arg (Vec3 x y z) obj) Double.zero = true ->
  Gravity3D.CreateGridVertices size divisions v !! (3 * k + 1) = Some S754_nan.
Proof.
  intros Hx Hy Hz Hin Hneg. unfold Gravity3D.CreateGridVertices.
  rewrite (distort_lookup v k _ x y z Hx Hy Hz).
  rewrite (totalDisplacement_nan _ _ _ Hin (dip_nan _ _ Hneg)).
  unfold Float.add, Float.div, Float.sub.
  by rewrite SFadd_nan_r, SFdiv_nan_l, SFsub_nan_l.
Qed.

(** ** Input events *)

Lemma vec_get_last_None {A} (l : list A) : vec_get l (last_index l) = None <-> l = [].
Proof.
  split.
  - intros H. destruct l as [|x l]; [done|].
    destruct (vec_get_last (x :: l)) as [y Hy]; [done|]. congruence.
  - by intros ->.
Qed.

Lemma vec_get_lookup {A} (l : list A) i x :
  vec_get l i = Some x -> l !! Z.to_nat i = Some x.
Proof. unfold vec_get. by destruct (_ <=? _)%Z. Qed.

Lemma last_index_pred {A} (l : list A) :
  l <> [] -> (Z.of_nat (length l) <= 2 ^ 64)%Z -> Z.to_nat (last_index l) = pred (length l).
Proof.
  intros Hl Hb. unfold last_index, size_t_sub.
  assert (0 < length l) by (destruct l; simpl; [done|lia]).
  rewrite Z.mod_small by lia. lia.
Qed.

Lemma vec_update_some {A} (l : list A) i f x :
  vec_get l i = Some x -> vec_update l i f = Some (<[Z.to_nat i := f x]> l).
Proof. intros H. unfold vec_update. by rewrite H. Qed.

Lemma match_nonempty {A B} (l : list A) (a b : B) :
  l <> [] -> match l with [] => a | _ :: _ => b end = b.
Proof. by destruct l. Qed.

Lemma match_any {A B} (l : list A) (a : B) :
  match l with [] => a | _ :: _ => a end = a.
Proof. by destruct l. Qed.

Lemma positioning_fields key action shift o :
  set_position vec3_zero (positioning key action shift o) = set_position vec3_zero o.
Proof.
  unfold positioning.
  destruct (Key_eqb key KEY_UP && press_or_repeat action),
           (Key_eqb key KEY_DOWN && press_or_repeat action),
           (Key_eqb key KEY_RIGHT && press_or_repeat action),
           (Key_eqb key KEY_LEFT && press_or_repeat action), shift; done.
Qed.

Lemma positioning_idle key action shift o :
  action = RELEASE
  \/ (key <> KEY_UP /\ key <> KEY_DOWN /\ key <> KEY_LEFT /\ key <> KEY_RIGHT) ->
  positioning key action shift o = o.
Proof.
  intros [->|(H1 & H2 & H3 & H4)]; unfold positioning.
  - simpl. by rewrite !andb_false_r.
  - by destruct key.
Qed.

(** what [keyCallback] does when the vector is not empty *)
Lemma keyCallback_last held key action shift st x :
  vec_get (objs st) (last_index (objs st)) = Some x ->
  keyCallback held key action shift st
  = Some (mkSim (running st && negb (held KEY_Q)) (held KEY_K) (deltaTime st) (lastFrame st)
            (if Initalizing x
             then <[Z.to_nat (last_index (objs st)) := positioning key action shift x]> (objs st)
             else objs st)
            (gridVertices st)).
Proof.
  intros Hx.
  assert (Hne : objs st <> []).
  { intros E. apply vec_get_last_None in E. congruence. }
  unfold keyCallback. rewrite Hx.
  set (st1 := if held KEY_K then set_pause true st else st).
  set (st2 := if negb (held KEY_K) then set_pause false st1 else st1).
  set (st3 := if held KEY_Q then set_running false st2 else st2).
  assert (Hobjs : objs st3 = objs st).
  { unfold st3, st2, st1. by destruct (held KEY_K), (held KEY_Q). }
  assert (E3 : st3 = mkSim (running st && negb (held KEY_Q)) (held KEY_K) (deltaTime st)
                       (lastFrame st) (objs st) (gridVertices st)).
  { unfold st3, st2, st1. destruct st as [r p dt lf v g].
    destruct (held KEY_K), (held KEY_Q); simpl;
      by rewrite ?andb_true_r, ?andb_false_r. }
  rewrite Hobjs, (match_nonempty _ _ _ Hne), Hx.
  destruct (Initalizing x); [|by rewrite E3].
  rewrite (vec_update_some _ _ _ _ Hx). simpl. by rewrite E3.
Qed.

(** X11. A key event fails (indexes the body vector out of range) exactly
    when the vector is empty. *)
Theorem key_event_fails_only_on_empty held key action shift st :
  keyCallback held key action shift st = None <-> objs st = [].
Proof.
  split.
  - intros H. apply vec_get_last_None.
    destruct (vec_get (objs st) (last_index (objs st))) as [x|] eqn:Hx; [|done].
    by rewrite (keyCallback_last _ _ _ _ _ _ Hx) in H.
  - intros E. unfold keyCallback. by rewrite (proj2 (vec_get_last_None _) E).
Qed.

(** X12. A key event changes no body but the last one, and that one only
    while it is under construction and only in its position: erasing the
    positions, the bodies after the event are the bodies before it. *)
Theorem key_event_moves_last_creating_body_only held key action shift st st' :
  keyCallback held key action shift st = Some st' ->
  (Z.of_nat (length (objs st)) <= 2 ^ 64)%Z ->
  set_position vec3_zero <$> objs st' = set_position vec3_zero <$> objs st
  /\ forall i o, objs st !! i = Some o ->
       S i < length (objs st) \/ Initalizing o = false ->
       objs st' !! i = Some o.
Proof.
  intros H Hb.
  destruct (vec_get (objs st) (last_index (objs st))) as [x|] eqn:Hx.
  2: { unfold keyCallback in H. by rewrite Hx in H. }
  assert (Hne : objs st <> []).
  { intros E. apply vec_get_last_None in E. congruence. }
  rewrite (keyCallback_last _ _ _ _ _ _ Hx) in H. injection H as <-. simpl.
  pose proof (vec_get_lookup _ _ _ Hx) as Hl.
  rewrite (last_index_pred _ Hne Hb) in *.
  destruct (Initalizing x) eqn:Hi; [|done]. split.
  - rewrite list_fmap_insert, positioning_fields. apply list_insert_id.
    by rewrite list_lookup_fmap, Hl.
  - intros i o Ho [Hlt|Hinit].
    + rewrite list_lookup_insert_ne by lia. done.
    + destruct (decide (i = pred (length (objs st)))) as [->|Hn].
      * rewrite Hl in Ho. injection Ho as ->. congruence.
      * by rewrite list_lookup_insert_ne.
Qed.

(** X13. Releasing a key, or pressing one that is not an arrow key, changes
    no body at all. *)
Theorem key_release_changes_no_body held key action shift st st' :
  keyCallback held key action shift st = Some st' ->
  action = RELEASE
  \/ (key <> KEY_UP /\ key <> KEY_DOWN /\ key <> KEY_LEFT /\ key <> KEY_RIGHT) ->
  objs st' = objs st.
Proof.
  intros H Hidle.
  destruct (vec_get (objs st) (last_index (objs st))) as [x|] eqn:Hx.
  2: { unfold keyCallback in H. by rewrite Hx in H. }
  rewrite (keyCallback_last _ _ _ _ _ _ Hx) in H. injection H as <-. simpl.
  destruct (Initalizing x); [|done].
  rewrite positioning_idle by done. apply list_insert_id. by apply vec_get_lookup.
Qed.

Lemma vec_update_last_insert {A} (l : list A) f :
  l <> [] ->
  exists x, l !! Z.to_nat (last_index l) = Some x
            /\ vec_get l (last_index l) = Some x
            /\ vec_update l (last_index l) f = Some (<[Z.to_nat (last_index l) := f x]> l).
Proof.
  intros Hl. destruct (vec_get_last l Hl) as [x Hx]. exists x.
  split; [by apply vec_get_lookup|]. split; [done|]. by apply vec_update_some.
Qed.

Lemma last_index_length {A B} (l : list A) (l' : list B) :
  length l' = length l -> last_index l' = last_index l.
Proof. unfold last_index. by intros ->. Qed.

Lemma nonempty_length {A} (l : list A) : l <> [] <-> 0 < length l.
Proof. destruct l; simpl; split; (done || lia). Qed.

Lemma fmap_lookup_eq {A B} (f : A -> B) (l l' : list A) i o :
  f <$> l' = f <$> l -> l !! i = Some o -> exists o', l' !! i = Some o' /\ f o' = f o.
Proof.
  intros E Hi. apply (f_equal (fun l => l !! i)) in E.
  rewrite !list_lookup_fmap, Hi in E.
  destruct (l' !! i) as [o'|]; [|done]. exists o'. split; [done|]. by injection E.
Qed.

Section Events.
Variable pow : double -> double -> double.
Variable powf : float -> float -> float.
Variable sin : double -> double.
Variable cos : double -> double.
Variable abs : float -> float.

(** a mouse event touches nothing but the body vector *)
Lemma mouse_result button action st st' :
  mouseButtonCallback pow sin cos button action st = Some st' ->
  exists v, st' = set_objs v st.
Proof.
  unfold mouseButtonCallback.
  destruct (match button with MOUSE_BUTTON_LEFT => _ | _ => _ end) as [v|]; [|done].
  destruct v as [|o v], button; try (intros [= <-]; by eexists).
  destruct (vec_get _ _) as [x|]; [|done].
  destruct (Initalizing x && press_or_repeat action).
  - destruct (vec_update _ _ _); simpl; [|done]. intros [= <-]. by eexists.
  - intros [= <-]. by eexists.
Qed.

(** the left press *)
Lemma left_press st :
  (Z.of_nat (length (objs st)) < 2 ^ 64)%Z ->
  mouseButtonCallback pow sin cos MOUSE_BUTTON_LEFT PRESS st
  = Some (set_objs (objs st ++ [set_Initalizing true (clicked_body pow sin cos)]) st).
Proof.
  intros Hb. unfold mouseButtonCallback. fold (clicked_body pow sin cos).
  set (v := objs st ++ [clicked_body pow sin cos]).
  assert (Hlast : last_index v = Z.of_nat (length (objs st))).
  { unfold last_index, size_t_sub, v. rewrite length_app. simpl.
    replace (Z.of_nat (length (objs st) + 1) - 1)%Z with (Z.of_nat (length (objs st)))
      by lia.
    apply Z.mod_small. lia. }
  assert (Hget : vec_get v (last_index v) = Some (clicked_body pow sin cos)).
  { rewrite Hlast. unfold vec_get, v. rewrite length_app. simpl.
    destruct (Z.leb_spec (Z.of_nat (length (objs st) + 1)) (Z.of_nat (length (objs st))));
      [lia|].
    rewrite Nat2Z.id. by rewrite list_lookup_middle. }
  rewrite (vec_update_some _ _ _ _ Hget), Hlast, Nat2Z.id. unfold v.
  rewrite insert_app_r_alt, Nat.sub_diag by done. simpl.
  apply match_any.
Qed.

(** the left release *)
Lemma left_release st :
  objs st <> [] ->
  exists x,
    objs st !! Z.to_nat (last_index (objs st)) = Some x
    /\ mouseButtonCallback pow sin cos MOUSE_BUTTON_LEFT RELEASE st
       = Some (set_objs (<[Z.to_nat (last_index (objs st))
                          := set_Launched true (set_Initalizing false x)]> (objs st)) st).
Proof.
  intros Hne. unfold mouseButtonCallback.
  destruct (vec_update_last_insert (objs st) (set_Initalizing false) Hne)
    as (x & Hx & _ & ->).
  exists x. split; [done|].
  set (l1 := <[_ := _]> (objs st)).
  assert (Hlen : length l1 = length (objs st)) by apply length_insert.
  assert (Hne1 : l1 <> []) by (apply nonempty_length; rewrite Hlen; by apply nonempty_length).
  destruct (vec_update_last_insert l1 (set_Launched true) Hne1) as (x1 & Hx1 & _ & ->).
  rewrite (last_index_length _ _ Hlen) in *.
  unfold l1 in Hx1. rewrite list_lookup_insert_eq in Hx1 by by eapply lookup_lt_Some.
  injection Hx1 as <-. unfold l1. rewrite list_insert_insert_eq.
  apply match_any.
Qed.

(** the right button *)
Lemma right_button action st :
  objs st <> [] ->
  exists x,
    objs st !! Z.to_nat (last_index (objs st)) = Some x
    /\ mouseButtonCallback pow sin cos MOUSE_BUTTON_RIGHT action st
       = Some (if Initalizing x && press_or_repeat action
               then set_objs (<[Z.to_nat (last_index (objs st))
                                := set_mass (clicked_mass (mass x)) x]> (objs st)) st
               else set_objs (objs st) st).
Proof.
  intros Hne. unfold mouseButtonCallback.
  destruct (vec_update_last_insert (objs st)
              (fun o => set_mass (Float.round (Double.mul (Double.round (mass o))
                                                 (Double.of_dec 12 10))) o) Hne)
    as (x & Hx & Hget & Hup).
  exists x. split; [done|].
  replace (match action with RELEASE | _ => Some (objs st) end) with (Some (objs st))
    by by destruct action.
  rewrite (match_nonempty _ _ _ Hne), Hget.
  destruct (Initalizing x && press_or_repeat action); [|done].
  by rewrite Hup.
Qed.

Lemma set_objs_id st : set_objs (objs st) st = st.
Proof. by destruct st. Qed.

(** the remaining combinations do nothing *)
Lemma mouse_idle button action st :
  (button = MOUSE_BUTTON_LEFT /\ action = REPEAT) \/ button = MOUSE_BUTTON_OTHER ->
  mouseButtonCallback pow sin cos button action st = Some st.
Proof.
  intros [[-> ->]| ->]; unfold mouseButtonCallback.
  - rewrite set_objs_id. apply match_any.
  - replace (match action with RELEASE | _ => Some (objs st) end) with (Some (objs st))
      by by destruct action.
    rewrite set_objs_id. apply match_any.
Qed.

(** X14. A mouse event fails (indexes the body vector out of range)
    exactly when the left button is released on the empty vector. *)
Theorem mouse_event_fails_only_on_empty_release button action st :
  mouseButtonCallback pow sin cos button action st = None
  <-> objs st = [] /\ button = MOUSE_BUTTON_LEFT /\ action = RELEASE.
Proof.
  split.
  - intros H. destruct (objs st) as [|o l] eqn:E.
    + destruct button, action; try done; exfalso.
      * unfold mouseButtonCallback in H. rewrite E in H. simpl in H. done.
      * rewrite mouse_idle in H by auto. done.
      * unfold mouseButtonCallback in H. rewrite E in H. done.
      * unfold mouseButtonCallback in H. rewrite E in H. done.
      * unfold mouseButtonCallback in H. rewrite E in H. done.
      * rewrite mouse_idle in H by auto. done.
      * rewrite mouse_idle in H by auto. done.
      * rewrite mouse_idle in H by auto. done.
    + exfalso. assert (Hne : objs st <> []) by by rewrite E.
      destruct button.
      * destruct action.
        -- destruct (left_release st Hne) as (x & _ & Hr). congruence.
        -- unfold mouseButtonCallback in H.
           set (v := objs st ++ _) in H.
           assert (Hv : v <> []) by (unfold v; by destruct (objs st)).
           destruct (vec_update_last_insert v (set_Initalizing true) Hv) as (x & _ & _ & Hu).
           rewrite Hu, match_any in H. done.
        -- rewrite mouse_idle in H by auto. done.
      * destruct (right_button action st Hne) as (x & _ & Hr). congruence.
      * rewrite mouse_idle in H by auto. done.
  - intros (E & -> & ->). unfold mouseButtonCallback. by rewrite E.
Qed.
End Events.

Section Runs.
Variable pow : double -> double -> double.
Variable powf : float -> float -> float.
Variable sin : double -> double.
Variable cos : double -> double.
Variable abs : float -> float.

Lemma left_press_any st :
  exists v, mouseButtonCallback pow sin cos MOUSE_BUTTON_LEFT PRESS st = Some (set_objs v st)
            /\ length v = S (length (objs st)).
Proof.
  unfold mouseButtonCallback. set (v := objs st ++ _).
  assert (Hlen : length v = S (length (objs st))).
  { unfold v. rewrite length_app. simpl. lia. }
  assert (Hv : v <> []) by (apply nonempty_length; lia).
  destruct (vec_update_last_insert v (set_Initalizing true) Hv) as (x & _ & _ & ->).
  eexists. split; [apply match_any|]. by rewrite length_insert.
Qed.

(** an event handled on a non-empty vector returns, and removes no body *)
Lemma step_total ev st :
  objs st <> [] ->
  exists st', step pow powf sin cos abs ev st = Some st'
              /\ length (objs st) <= length (objs st').
Proof.
  intros Hne. destruct ev as [now rd|held key action shift|button action]; simpl.
  - eexists. split; [done|]. by rewrite frame_length.
  - destruct (vec_get_last _ Hne) as [x Hx]. rewrite (keyCallback_last _ _ _ _ _ _ Hx).
    eexists. split; [done|]. simpl. destruct (Initalizing x); [|done].
    by rewrite length_insert.
  - destruct button; [destruct action| |].
    + destruct (left_release pow sin cos st Hne) as (x & _ & ->).
      eexists. split; [done|]. simpl. by rewrite length_insert.
    + destruct (left_press_any st) as (v & -> & Hv).
      eexists. split; [done|]. simpl. lia.
    + rewrite mouse_idle by auto. by eexists.
    + destruct (right_button pow sin cos action st Hne) as (x & _ & ->).
      eexists. split; [done|].
      destruct (Initalizing x && press_or_repeat action); simpl; [|done].
      by rewrite length_insert.
    + rewrite mouse_idle by auto. by eexists.
Qed.

(** X15. Once the body vector holds a body, every sequence of frames, key
    events and mouse events is handled to the end, no event indexing the
    vector out of range, and no body is ever removed. *)
Theorem events_never_fail_after_first_body evs : forall st,
  objs st <> [] ->
  exists st', run pow powf sin cos abs evs st = Some st'
              /\ length (objs st) <= length (objs st').
Proof.
  induction evs as [|ev evs IH]; intros st Hne; simpl.
  - by eexists.
  - destruct (step_total ev st Hne) as (st1 & -> & Hlen).
    assert (Hne1 : objs st1 <> []).
    { apply nonempty_length. apply nonempty_length in Hne. lia. }
    destruct (IH st1 Hne1) as (st' & -> & Hlen').
    eexists. split; [done|]. lia.
Qed.

(** X16. A click, the left button pressed and released, appends exactly
    one body and leaves the others alone: the body the constructor builds
    at the origin, at rest, with mass [initMass] and density 3344, not
    under construction any more and marked as launched. *)
Theorem click_adds_launched_body st :
  (Z.of_nat (length (objs st)) < 2 ^ 64)%Z ->
  run pow powf sin cos abs
      [MouseEvent MOUSE_BUTTON_LEFT PRESS; MouseEvent MOUSE_BUTTON_LEFT RELEASE] st
  = Some (set_objs (objs st ++ [set_Launched true (clicked_body pow sin cos)]) st).
Proof.
  intros Hb. simpl. rewrite left_press by done.
  set (st1 := set_objs _ st).
  assert (Hobjs : objs st1 = objs st ++ [set_Initalizing true (clicked_body pow sin cos)])
    by done.
  assert (Hne : objs st1 <> []).
  { apply nonempty_length. rewrite Hobjs, length_app. simpl. lia. }
  destruct (left_release pow sin cos st1 Hne) as (x & Hx & ->).
  rewrite last_index_pred in * by (done || (rewrite Hobjs, length_app; simpl; lia)).
  rewrite Hobjs in *. rewrite length_app in *. simpl in Hx |- *.
  replace (pred (length (objs st) + 1)) with (length (objs st) + 0) in * by lia.
  rewrite list_lookup_middle in Hx by lia. injection Hx as <-.
  rewrite insert_app_r. by destruct st.
Qed.

(** X17. A body that is not under construction stays so, with the mass
    and density it has, through every sequence of events (as long as the
    number of bodies stays within the range of [size_t]). *)
Theorem released_body_is_final evs : forall st st' i o,
  (Z.of_nat (length (objs st) + length evs) < 2 ^ 64)%Z ->
  run pow powf sin cos abs evs st = Some st' ->
  objs st !! i = Some o -> Initalizing o = false ->
  exists o', objs st' !! i = Some o'
             /\ Initalizing o' = false /\ mass o' = mass o /\ density o' = density o.
Proof.
  induction evs as [|ev evs IH]; intros st st' i o Hb Hrun Hi Ho; simpl in Hrun.
  { injection Hrun as <-. by exists o. }
  assert (Hne : objs st <> []) by (intros E; by rewrite E in Hi).
  assert (Hstep : exists st1 o1, step pow powf sin cos abs ev st = Some st1
                    /\ length (objs st1) <= S (length (objs st))
                    /\ objs st1 !! i = Some o1
                    /\ Initalizing o1 = false /\ mass o1 = mass o /\ density o1 = density o).
  { destruct ev as [now rd|held key action shift|button action]; simpl.
    - destruct (fmap_lookup_eq (fun o => (Initalizing o, density o)) (objs st)
                  (objs (frame pow powf sin cos abs now rd st)) i o) as (o1 & H1 & E); [|done|].
      { apply frame_preserves; intros; [done| |].
        - by destruct (pairStep_fields powf (pause st) o0 o2) as (_ & -> & _ & _ & -> & _).
        - by destruct (finish_fields pow sin cos (pause st) o0) as (-> & _ & _ & -> & _). }
      injection E as EI Ed.
      pose proof (frame_mass_released pow powf sin cos abs now rd st i o Hi Ho) as Hm.
      rewrite H1 in Hm. injection Hm as Hm.
      exists (frame pow powf sin cos abs now rd st), o1.
      rewrite frame_length. repeat split; (done || lia || congruence).
    - destruct (vec_get_last _ Hne) as [x Hx]. rewrite (keyCallback_last _ _ _ _ _ _ Hx).
      eexists _, o. split; [done|]. simpl.
      pose proof (vec_get_lookup _ _ _ Hx) as Hl.
      destruct (Initalizing x) eqn:Hix; [rewrite length_insert|];
        (split; [lia|]); (split; [|done]); [|done].
      rewrite list_lookup_insert_ne; [done|]. intros <-. congruence.
    - destruct button; [destruct action| |].
      + destruct (left_release pow sin cos st Hne) as (x & Hx & ->).
        destruct (decide (i = Z.to_nat (last_index (objs st)))) as [->|Hn].
        * eexists _, _. split; [done|]. simpl. rewrite length_insert.
          split; [lia|]. rewrite list_lookup_insert_eq by by eapply lookup_lt_Some.
          split; [done|]. rewrite Hi in Hx. by injection Hx as <-.
        * eexists _, o. split; [done|]. simpl. rewrite length_insert.
          split; [lia|]. by rewrite list_lookup_insert_ne.
      + rewrite left_press by lia. eexists _, o. split; [done|]. simpl.
        rewrite length_app. simpl. split; [lia|].
        by rewrite lookup_app_l by by eapply lookup_lt_Some.
      + rewrite mouse_idle by auto. eexists _, o. split; [done|]. split; [lia|done].
      + destruct (right_button pow sin cos action st Hne) as (x & Hx & ->).
        destruct (Initalizing x && press_or_repeat action) eqn:E.
        * eexists _, o. split; [done|]. simpl. rewrite length_insert. split; [lia|].
          split; [|done]. rewrite list_lookup_insert_ne; [done|]. intros <-.
          apply andb_true_iff in E as [E _]. congruence.
        * eexists _, o. split; [done|]. simpl. split; [lia|done].
      + rewrite mouse_idle by auto. eexists _, o. split; [done|]. split; [lia|done]. }
  destruct Hstep as (st1 & o1 & Hs & Hlen & H1 & HI & Hm & Hd).
  rewrite Hs in Hrun.
  destruct (IH st1 st' i o1) as (o' & H' & HI' & Hm' & Hd'); try done.
  { simpl in Hb. lia. }
  exists o'. repeat split; (done || congruence).
Qed.

Lemma step_running ev st st' :
  step pow powf sin cos abs ev st = Some st' -> running st = false -> running st' = false.
Proof.
  destruct ev as [now rd|held key action shift|button action]; simpl; intros H Hr.
  - by injection H as <-.
  - destruct (vec_get (objs st) (last_index (objs st))) as [x|] eqn:Hx.
    + rewrite (keyCallback_last _ _ _ _ _ _ Hx) in H. injection H as <-. simpl.
      by rewrite Hr.
    + unfold keyCallback in H. by rewrite Hx in H.
  - destruct (mouse_result pow sin cos _ _ _ _ H) as [v ->]. done.
Qed.

(** X18. Nothing restarts the loop: once [running] is cleared (the Q
    key), it stays cleared through every sequence of events. *)
Theorem running_never_resumes evs : forall st st',
  running st = false -> run pow powf sin cos abs evs st = Some st' -> running st' = false.
Proof.
  induction evs as [|ev evs IH]; intros st st' Hr Hrun; simpl in Hrun.
  - by injection Hrun as <-.
  - destruct (step pow powf sin cos abs ev st) as [st1|] eqn:Hs; [|done].
    apply (IH st1); [|done]. by apply (step_running ev st).
Qed.
End Runs.

(** ** The mass added by a right click *)

Lemma clicked_mass_increases m :
  positive_normal Float.prec Float.emax m = true ->
  Float.ltb m (clicked_mass m) = true.
Proof.
  intros Hm.
  destruct (positive_normal_inv m Hm) as (mm & me & -> & Hd & Hcan & Hme).
  pose proof (digits2_pos_bounds mm) as [Hl Hu]. rewrite Hd in Hl, Hu.
  assert (Hp53 : (0 < 53)%Z) by done. assert (Hp24 : (0 < 24)%Z) by done.
  (* the factor 1.2 is at least 1 + 2^-23 *)
  assert (HF : at_least (Double.of_dec 12 10) (F2R 8388609 (-23))).
  { change (Double.of_dec 12 10) with (S754_finite false 5404319552844595 (-52)). simpl.
    rewrite <- (F2R_shift 8388609 (-23) 29) by lia.
    apply F2R_le_mantissa. done. }
  (* the mass as a double *)
  assert (HM : at_least (Double.round (S754_finite false mm me)) (F2R (Zpos mm) me)).
  { apply (round_at_least 53 1024 Hp53 (S754_finite false mm me) (F2R (Zpos mm) me) mm me);
      [simpl; lra|unfold emin; lia|lia|lra]. }
  (* the product *)
  assert (HP : at_least (Double.mul (Double.round (S754_finite false mm me))
                           (Double.of_dec 12 10))
                        (F2R (Zpos (mm * 8388609)) (me + -23))).
  { apply (SFmul_at_least 53 1024 Hp53 _ _ (F2R (Zpos mm) me) (F2R 8388609 (-23)));
      try done; try apply F2R_pos.
    - unfold emin. lia.
    - assert (Zpos (digits2_pos (mm * 8388609)) <= 48)%Z; [|lia].
      apply digits2_pos_le. rewrite Pos2Z.inj_mul. lia.
    - rewrite Pos2Z.inj_mul, F2R_mul. lra. }
  (* back to float *)
  destruct (next_mantissa mm me Hd) as (mr & er & Hv & Her & Hmr).
  assert (Hnext : (F2R (Zpos mr) er <= F2R (Zpos (mm * 8388609)) (me + -23))%R).
  { rewrite Hv. rewrite <- (F2R_shift (Zpos mm + 1) me 23) by lia.
    replace (me - 23)%Z with (me + -23)%Z by lia.
    apply F2R_le_mantissa. rewrite Pos2Z.inj_mul. lia. }
  assert (HR : at_least (clicked_mass (S754_finite false mm me)) (F2R (Zpos mr) er)).
  { apply (round_at_least 24 128 Hp24 _ _ mr er HP); [unfold emin; lia|done|done]. }
  assert (Hvalid : Float.valid (clicked_mass (S754_finite false mm me)) = true).
  { apply (round_valid 24 128 Hp24). }
  destruct (clicked_mass (S754_finite false mm me)) as [[]|[]| |[] mR eR]; try done.
  simpl in HR. apply (SFltb_of_lt 24 128 Hp24); [done| |].
  - unfold Float.valid in Hvalid. simpl in Hvalid. unfold bounded in Hvalid.
    by apply andb_true_iff in Hvalid as [? _].
  - assert (F2R (Zpos mm) me < F2R (Zpos mm + 1) me)%R; [|lra].
    unfold F2R. rewrite plus_IZR. pose proof (bpow_pos me). lra.
Qed.

Section RightClick.
Variable pow : double -> double -> double.
Variable sin : double -> double.
Variable cos : double -> double.

(** X19. Pressing the right button while the last body is under
    construction multiplies its mass by 1.2: the new mass is strictly
    larger whenever the mass is a positive normal float.  The click
    recomputes neither the radius nor the mesh, and no other body
    changes. *)
Theorem right_click_increases_mass action st o :
  last (objs st) = Some o -> Initalizing o = true -> press_or_repeat action = true ->
  (Z.of_nat (length (objs st)) <= 2 ^ 64)%Z ->
  positive_normal Float.prec Float.emax (mass o) = true ->
  exists st',
    mouseButtonCallback pow sin cos MOUSE_BUTTON_RIGHT action st = Some st'
    /\ objs st' = <[pred (length (objs st)) := set_mass (clicked_mass (mass o)) o]> (objs st)
    /\ Float.ltb (mass o) (clicked_mass (mass o)) = true
    /\ radius (set_mass (clicked_mass (mass o)) o) = radius o
    /\ vbo (set_mass (clicked_mass (mass o)) o) = vbo o.
Proof.
  intros Hl Ho Ha Hb Hm.
  assert (Hne : objs st <> []) by (intros E; by rewrite E in Hl).
  destruct (right_button pow sin cos action st Hne) as (x & Hx & ->).
  rewrite (last_index_pred _ Hne Hb) in *. rewrite last_lookup, Hx in Hl.
  injection Hl as ->. rewrite Ho, Ha. simpl.
  eexists. split; [done|]. split; [done|]. split; [|done].
  by apply clicked_mass_increases.
Qed.
End RightClick.

(** ** The camera *)

Lemma compare_cont_swap m1 m2 :
  PosDef.Pos.compare_cont Eq m2 m1 = CompOpp (PosDef.Pos.compare_cont Eq m1 m2).
Proof. exact (eq_sym (Pos.compare_cont_antisym m1 m2 Eq)). Qed.

Lemma SFcompare_swap x y : SFcompare y x = option_map CompOpp (SFcompare x y).
Proof.
  destruct x as [[]|[]| |[] m1 e1], y as [[]|[]| |[] m2 e2]; try done;
    unfold SFcompare; simpl; f_equal;
    rewrite (Z.compare_antisym e1 e2); destruct (e1 ?= e2)%Z; simpl; try done;
    rewrite compare_cont_swap; by rewrite ?CompOpp_involutive.
Qed.

Lemma SFcompare_None x y : SFcompare x y = None -> x = S754_nan \/ y = S754_nan.
Proof. destruct x as [[]|[]| |[] m1 e1], y as [[]|[]| |[] m2 e2]; (done || auto). Qed.

(** on numbers, [!(x < y)] is [y <= x] *)
Lemma SFleb_of_not_ltb x y :
  x <> S754_nan -> y <> S754_nan -> SFltb x y = false -> SFleb y x = true.
Proof.
  intros Hx Hy. unfold SFltb, SFleb. rewrite (SFcompare_swap x y).
  destruct (SFcompare x y) as [[]|] eqn:E; try done.
  by destruct (SFcompare_None _ _ E).
Qed.

(** X20. After every mouse movement the pitch of the camera is NaN or lies
    between -89 and 89 degrees, whatever it was before and wherever the
    mouse went: the camera cannot flip over. *)
Theorem pitch_stays_clamped sin cos radians normalize xpos ypos cam :
  pitch (mouse_callback sin cos radians normalize xpos ypos cam) = S754_nan
  \/ (Float.leb (Float.of_Z (-89)) (pitch (mouse_callback sin cos radians normalize xpos ypos cam))
      = true
      /\ Float.leb (pitch (mouse_callback sin cos radians normalize xpos ypos cam))
                   (Float.of_Z 89) = true).
Proof.
  unfold mouse_callback. simpl pitch.
  set (p := Float.add (pitch cam) _). clearbody p.
  unfold clamp_pitch. destruct (Float.gtb p (Float.of_Z 89)) eqn:Hhi.
  - right. by vm_compute.
  - destruct (Float.ltb p (Float.of_Z (-89))) eqn:Hlo.
    + right. by vm_compute.
    + destruct p as [s|s| |s m e]; [right|right|by left|right];
        (split; apply SFleb_of_not_ltb; done).
Qed.

(** ** Symmetry of the distance tests *)

Lemma binary_round_aux_opp prec emax m e l :
  binary_round_aux prec emax true m e l = SFopp (binary_round_aux prec emax false m e l).
Proof.
  unfold binary_round_aux.
  destruct (shr_fexp prec emax m e l) as [mrs' e'].
  destruct (shr_fexp prec emax _ e' loc_Exact) as [mrs'' e''].
  destruct (shr_m mrs''); [done| |done]. by destruct (_ <=? _)%Z.
Qed.

Lemma binary_normalize_opp prec emax n e :
  n <> 0%Z ->
  binary_normalize prec emax (- n) e false = SFopp (binary_normalize prec emax n e false).
Proof.
  intros Hn. destruct n as [|p|p]; [done| |]; unfold binary_normalize, binary_round; simpl;
    destruct (shl_align p e _) as [mz ez]; rewrite binary_round_aux_opp; [done|].
  by destruct (binary_round_aux prec emax false (Zpos mz) ez loc_Exact) as [[]|[]| |[] ? ?].
Qed.

Lemma SFmul_opp_opp prec emax x :
  SFmul prec emax (SFopp x) (SFopp x) = SFmul prec emax x x.
Proof. by destruct x as [[]|[]| |[] m e]. Qed.

Lemma SFmul_zero_zero prec emax s1 s2 :
  SFmul prec emax (S754_zero s1) (S754_zero s1) = SFmul prec emax (S754_zero s2) (S754_zero s2).
Proof. by destruct s1, s2. Qed.

(** [(b - a) * (b - a)] is [(a - b) * (a - b)] *)
Lemma square_of_difference_sym prec emax a b :
  SFmul prec emax (SFsub prec emax b a) (SFsub prec emax b a)
  = SFmul prec emax (SFsub prec emax a b) (SFsub prec emax a b).
Proof.
  destruct a as [sa|sa| |sa ma ea], b as [sb|sb| |sb mb eb]; try done;
    try (by destruct sa, sb).
  unfold SFsub.
  replace (IntDef.Z.min eb ea) with (IntDef.Z.min ea eb) by apply Z.min_comm.
  set (ez := IntDef.Z.min ea eb).
  set (na := cond_Zopp sa (Zpos (fst (shl_align ma ea ez)))).
  set (nb := cond_Zopp sb (Zpos (fst (shl_align mb eb ez)))).
  destruct (Z.eq_dec (na - nb)%Z 0%Z) as [E|E].
  - replace (nb - na)%Z with 0%Z by lia. by rewrite E.
  - replace (nb - na)%Z with (- (na - nb))%Z by lia.
    rewrite binary_normalize_opp by done. apply SFmul_opp_opp.
Qed.

Lemma SFadd_comm prec emax x y : SFadd prec emax x y = SFadd prec emax y x.
Proof.
  destruct x as [sx|sx| |sx mx ex], y as [sy|sy| |sy my ey]; try done;
    try (by destruct sx, sy).
  unfold SFadd.
  replace (IntDef.Z.min ey ex) with (IntDef.Z.min ex ey) by apply Z.min_comm.
  by rewrite Z.add_comm.
Qed.

Section Symmetry.
Variable powf : float -> float -> float.

Lemma squared_distance_sym (p q : vec3) :
  Float.add (Float.add (Float.mul (Float.sub (vx q) (vx p)) (Float.sub (vx q) (vx p)))
                       (Float.mul (Float.sub (vy q) (vy p)) (Float.sub (vy q) (vy p))))
            (Float.mul (Float.sub (vz q) (vz p)) (Float.sub (vz q) (vz p)))
  = Float.add (Float.add (Float.mul (Float.sub (vx p) (vx q)) (Float.sub (vx p) (vx q)))
                         (Float.mul (Float.sub (vy p) (vy q)) (Float.sub (vy p) (vy q))))
              (Float.mul (Float.sub (vz p) (vz q)) (Float.sub (vz p) (vz q))).
Proof.
  unfold Float.mul, Float.sub.
  by rewrite (square_of_difference_sym _ _ (vx p)), (square_of_difference_sym _ _ (vy p)),
             (square_of_difference_sym _ _ (vz p)).
Qed.

(** X21. Both distance tests are symmetric, bit for bit: the distance of
    the force computation and the collision test give the same result for
    the pair (a, b) and for the pair (b, a), so two bodies overlap for
    the one exactly when they overlap for the other. *)
Theorem distance_tests_are_symmetric a b :
  separation a b = separation b a
  /\ collision_distance powf a b = collision_distance powf b a
  /\ overlapping powf a b = overlapping powf b a
  /\ CheckCollision powf a b = CheckCollision powf b a.
Proof.
  assert (Hs : separation a b = separation b a).
  { unfold separation, GetPos. by rewrite squared_distance_sym. }
  assert (Hc : collision_distance powf a b = collision_distance powf b a).
  { unfold collision_distance. by rewrite squared_distance_sym. }
  assert (Ho : overlapping powf a b = overlapping powf b a).
  { unfold overlapping. rewrite Hc. unfold Float.add. by rewrite SFadd_comm. }
  repeat split; try done. unfold CheckCollision. by rewrite Ho.
Qed.
End Symmetry.

(** ** The centre of mass and the growth step *)

(** X22. Bodies under construction do not count in the centre of mass
    that [UpdateGridVertices] shifts the grid by. *)
Theorem center_of_mass_ignores_creating_bodies v :
  centerOfMassY v = centerOfMassY (filter (fun o => Initalizing o = false) v).
Proof.
  unfold centerOfMassY.
  match goal with |- context [foldl ?F _ v] => set (f := F) end.
  assert (H : forall acc, foldl f acc v
                          = foldl f acc (filter (fun o => Initalizing o = false) v)).
  { induction v as [|o v IH]; intros acc; [done|].
    rewrite filter_cons. simpl. destruct (decide (Initalizing o = false)) as [E|E].
    - simpl. apply IH.
    - rewrite IH. f_equal. unfold f. destruct acc. by destruct (Initalizing o). }
  by rewrite H.
Qed.

Section GrowthStep.
Variable pow : double -> double -> double.
Variable sin : double -> double.
Variable cos : double -> double.

(** X23. The growth step touches the last body only: every other body,
    under construction or not, comes out of it as it went in, and
    without the right button held nothing changes at all. *)
Theorem growth_touches_last_body_only dt rightDown v :
  (forall i, S i < length v -> growth pow sin cos dt rightDown v !! i = v !! i)
  /\ (rightDown = false -> growth pow sin cos dt rightDown v = v).
Proof.
  unfold growth. destruct (last v) as [o|]; [|done]. split.
  - intros i Hi. destruct (Initalizing o && rightDown); [|done].
    apply list_lookup_insert_ne. lia.
  - intros ->. by rewrite andb_false_r.
Qed.
End GrowthStep.

(** * The pair loop, pair by pair and frame by frame *)

(** ** Collision damping *)

(** a valid number multiplied by [-0.2f] is a valid number *)
Lemma mul_minus_fifth_valid x :
  Float.valid x = true -> Float.valid (Float.mul x minus_fifth) = true.
Proof.
  intros Hv. destruct x as [s|s| |s m e]; try done.
  unfold Float.mul, minus_fifth, SFmul, Float.valid.
  apply (binary_round_aux_valid 24 128); [done|].
  assert (Hd : (24 <= Zpos (digits2_pos (m * 13421773)))%Z).
  { apply digits2_pos_ge. rewrite Pos2Z.inj_mul. change (2 ^ (24 - 1))%Z with 8388608%Z. lia. }
  unfold fexp. lia.
Qed.

Lemma damped_valid v :
  Float.valid (vx v) = true -> Float.valid (vy v) = true -> Float.valid (vz v) = true ->
  Float.valid (vx (damped v)) = true /\ Float.valid (vy (damped v)) = true
  /\ Float.valid (vz (damped v)) = true.
Proof. intros. repeat split; by apply mul_minus_fifth_valid. Qed.

Lemma foldl_pointwise {A B} (f g : A -> B -> A) l :
  (forall a b, f a b = g a b) -> forall a, foldl f a l = foldl g a l.
Proof.
  intros Hfg. induction l as [|b l IH]; intros a; simpl; [done|]. by rewrite Hfg, IH.
Qed.

Section Damping.
Variable pow : double -> double -> double.
Variable powf : float -> float -> float.
Variable sin : double -> double.
Variable cos : double -> double.

(** what one admitted pair at positive separation does to the velocity,
    with the multiplication written out *)
Lemma pairVelocity_factor paused obj vel obj2 :
  pairVelocity powf paused obj vel obj2
  = if overlapping powf obj obj2
    then damped (velocity (kick paused (set_velocity vel obj) obj2))
    else Vec3 (Float.mul (vx (velocity (kick paused (set_velocity vel obj) obj2)))
                         (Float.of_Z 1))
              (Float.mul (vy (velocity (kick paused (set_velocity vel obj) obj2)))
                         (Float.of_Z 1))
              (Float.mul (vz (velocity (kick paused (set_velocity vel obj) obj2)))
                         (Float.of_Z 1)).
Proof. unfold pairVelocity, CheckCollision. by destruct (overlapping powf obj obj2). Qed.

(** while paused, a partner that overlaps multiplies by [-0.2f] and one
    that does not leaves a valid velocity alone *)
Lemma paused_partners_damped obj : forall l vel,
  Float.valid (vx vel) = true -> Float.valid (vy vel) = true ->
  Float.valid (vz vel) = true ->
  foldl (pairVelocity powf true obj) vel l
  = Nat.iter (length (List.filter (overlapping powf obj) l)) damped vel.
Proof.
  induction l as [|obj2 l IH]; intros vel Hx Hy Hz; [done|].
  simpl foldl. rewrite pairVelocity_factor. simpl List.filter.
  change (velocity (kick true (set_velocity vel obj) obj2)) with vel.
  destruct (overlapping powf obj obj2).
  - destruct (damped_valid vel Hx Hy Hz) as (Hx' & Hy' & Hz').
    rewrite (IH _ Hx' Hy' Hz'). simpl length.
    clear. induction (length _) as [|n IHn]; simpl; [done|]. by rewrite IHn.
  - rewrite !Float_mul_one by done. destruct vel. by apply IH.
Qed.

End Damping.

(** ** Zero separation *)

Lemma separation_sym a b : separation a b = separation b a.
Proof. unfold separation, GetPos. by rewrite squared_distance_sym. Qed.

Lemma partners_from_positive i obj obj2 : forall rest j,
  obj2 ∈ partners_from i j obj rest -> Float.gtb (separation obj obj2) Float.zero = true.
Proof.
  induction rest as [|o rest IH]; intros j Hin; simpl in Hin.
  - by apply elem_of_nil in Hin.
  - apply elem_of_app in Hin as [Hin|Hin]; [|by eapply IH].
    destruct (admitted i j obj o && Float.gtb (separation obj o) Float.zero) eqn:E.
    + apply list_elem_of_singleton in Hin as ->. by apply andb_true_iff in E as [_ ?].
    + by apply elem_of_nil in Hin.
Qed.

Section ZeroSeparation.
Variable pow : double -> double -> double.
Variable powf : float -> float -> float.
Variable sin : double -> double.
Variable cos : double -> double.

Lemma skipped_pair paused obj obj2 :
  Float.gtb (separation obj obj2) Float.zero = false -> pairStep powf paused obj obj2 = obj.
Proof. intros Hs. unfold pairStep. by rewrite Hs. Qed.

Lemma skipped_iteration paused v i j obj obj2 :
  v !! i = Some obj -> v !! j = Some obj2 ->
  Float.gtb (separation obj obj2) Float.zero = false ->
  innerStep powf paused i v j = v.
Proof.
  intros Hi Hj Hs. unfold innerStep. rewrite Hi, Hj, (skipped_pair _ _ _ Hs).
  destruct (admitted i j obj obj2); [by apply list_insert_id|done].
Qed.

(** in a paused frame the partners are those of the vector the frame
    starts with *)
Lemma paused_velocity v i obj :
  v !! i = Some obj ->
  velocity <$> physics pow powf sin cos true v !! i
  = Some (foldl (pairVelocity powf true obj) (velocity obj) (partners v i obj)).
Proof.
  intros Hi. rewrite (physics_velocity pow powf sin cos _ _ _ _ Hi). f_equal.
  unfold partners. apply partners_shape, paused_reached_shape.
Qed.

(** the vector of two bodies when the loop reaches the second *)
Lemma reached_second paused obj obj2 :
  Initalizing obj = false ->
  Float.gtb (separation obj obj2) Float.zero = false ->
  reached pow powf sin cos paused [obj; obj2] 1 = [move pow paused obj; obj2].
Proof.
  intros Ho Hs. unfold reached. simpl.
  rewrite (bodyStep_eq pow powf sin cos paused [obj; obj2] 0 obj eq_refl). simpl.
  assert (E0 : partnerStep powf paused 0 [obj; obj2] obj 0 = obj) by done.
  assert (E1 : partnerStep powf paused 0 [obj; obj2] obj 1 = obj).
  { unfold partnerStep. simpl. rewrite (skipped_pair _ _ _ Hs). by destruct (admitted _ _ _ _). }
  rewrite E0, E1. unfold initRadius. by rewrite Ho.
Qed.

End ZeroSeparation.

(** ** The last body *)

Section LastBody.
Variable pow : double -> double -> double.
Variable powf : float -> float -> float.
Variable sin : double -> double.
Variable cos : double -> double.
Variable abs : float -> float.

Lemma run_keeps_a_body evs : forall st,
  objs st <> [] ->
  exists st', run pow powf sin cos abs evs st = Some st' /\ objs st' <> [].
Proof.
  induction evs as [|ev evs IH]; intros st Hne; simpl.
  - by eexists.
  - destruct (step_total pow powf sin cos abs ev st Hne) as (st1 & -> & Hlen).
    apply IH. apply nonempty_length. apply nonempty_length in Hne. lia.
Qed.

End LastBody.

(** ** Signs *)

Lemma binary_round_aux_signed prec emax s m e l :
  signed s (binary_round_aux prec emax s m e l).
Proof.
  unfold binary_round_aux.
  destruct (shr_fexp prec emax m e l) as [mrs' e'].
  destruct (shr_fexp prec emax _ e' loc_Exact) as [mrs'' e''].
  destruct (shr_m mrs''); [done| |done]. by destruct (_ <=? _)%Z.
Qed.

Lemma signed_has_sign s x : signed s x -> has_sign s x.
Proof. by destruct x. Qed.

Lemma SFmul_signed prec emax s t x y :
  signed s x -> signed t y -> signed (xorb s t) (SFmul prec emax x y).
Proof.
  unfold SFmul.
  destruct x as [sx|sx| |sx mx ex], y as [sy|sy| |sy my ey]; simpl; try done;
    try (by intros; subst).
  intros -> ->. apply binary_round_aux_signed.
Qed.

Lemma SFmul_sign prec emax s t x y :
  has_sign s x -> has_sign t y -> has_sign (xorb s t) (SFmul prec emax x y).
Proof.
  unfold SFmul.
  destruct x as [sx|sx| |sx mx ex], y as [sy|sy| |sy my ey]; simpl; try done;
    try (by intros; subst).
  intros -> ->. apply signed_has_sign, binary_round_aux_signed.
Qed.

(** the sign of a quotient, the divisor being of a definite sign *)
Lemma SFdiv_sign prec emax s t x y :
  has_sign s x -> signed t y -> has_sign (xorb s t) (SFdiv prec emax x y).
Proof.
  unfold SFdiv.
  destruct x as [sx|sx| |sx mx ex], y as [sy|sy| |sy my ey]; simpl; try done;
    try (by intros; subst).
  intros -> ->. destruct (SFdiv_core_binary _ _ _ _ _ _) as [[mz ez] lz].
  apply signed_has_sign, binary_round_aux_signed.
Qed.

Lemma SFadd_zero_sign prec emax s x :
  has_sign s x -> has_sign s (SFadd prec emax (S754_zero false) x).
Proof. unfold SFadd. by destruct x as [[]|sx| |sx mx ex]. Qed.

Lemma binary_normalize_signed prec emax s m e :
  signed s (binary_normalize prec emax (cond_Zopp s (Zpos m)) e s).
Proof.
  destruct s; unfold binary_normalize, binary_round; simpl;
    destruct (shl_align m e _) as [mz ez]; apply binary_round_aux_signed.
Qed.

Lemma Float_round_sign s x : has_sign s x -> has_sign s (Float.round x).
Proof.
  destruct x as [sx|sx| |sx mx ex]; simpl; try done.
  intros ->. apply signed_has_sign, binary_normalize_signed.
Qed.

Lemma Double_round_signed s x : signed s x -> signed s (Double.round x).
Proof.
  destruct x as [sx|sx| |sx mx ex]; simpl; try done.
  intros ->. apply binary_normalize_signed.
Qed.

Lemma signed_of_positive x : SFltb (S754_zero false) x = true -> signed false x.
Proof. by destruct x as [sx|[]| |[] mx ex]. Qed.

Lemma not_negative_iff x : SFltb x (S754_zero false) = false <-> has_sign false x.
Proof. by destruct x as [sx|[]| |[] mx ex]. Qed.

Lemma not_positive_iff x : SFltb (S754_zero false) x = false <-> has_sign true x.
Proof. by destruct x as [sx|[]| |[] mx ex]. Qed.

Lemma along_of_sign d x : (forall s, has_sign s d -> has_sign s x) -> along d x.
Proof.
  intros H. split; intros Hd.
  - apply not_negative_iff, H, not_negative_iff, Hd.
  - apply not_positive_iff, H, not_positive_iff, Hd.
Qed.

(** ** Two bodies at rest *)

Section TwoBodies.
Variable pow : double -> double -> double.
Variable powf : float -> float -> float.
Variable sin : double -> double.
Variable cos : double -> double.

(** the magnitude [acc1] of the acceleration is not negative *)
Lemma magnitude_sign (distance m1 m2 : float) :
  signed false distance -> signed false m1 -> signed false m2 ->
  has_sign false
    (Float.round
       (Double.div
          (Double.div (Double.mul (Double.mul G (Double.round m1)) (Double.round m2))
                      (Double.round (Float.mul distance distance)))
          (Double.round m1))).
Proof.
  intros Hd H1 H2. apply Float_round_sign.
  apply (SFdiv_sign _ _ false false); [|by apply Double_round_signed].
  apply (SFdiv_sign _ _ false false).
  - apply signed_has_sign. apply (SFmul_signed _ _ false false); [|by apply Double_round_signed].
    apply (SFmul_signed _ _ false false); [by vm_compute|by apply Double_round_signed].
  - apply Double_round_signed. by apply (SFmul_signed _ _ false false).
Qed.

(** one component of the velocity a body at rest is given by a partner
    it does not overlap *)
Lemma component_sign s (d dist acc1 : float) :
  has_sign s d -> signed false dist -> has_sign false acc1 ->
  has_sign s (Float.mul (Float.add Float.zero
                           (Float.div (Float.mul (Float.div d dist) acc1) (Float.of_Z 96)))
                        (Float.of_Z 1)).
Proof.
  intros Hd Hdist Hacc.
  rewrite <- (xorb_false_r s). apply SFmul_sign; [|by vm_compute].
  apply SFadd_zero_sign.
  rewrite <- (xorb_false_r s). apply SFdiv_sign; [|by vm_compute].
  rewrite <- (xorb_false_r s). apply SFmul_sign; [|done].
  rewrite <- (xorb_false_r s). by apply SFdiv_sign.
Qed.

(** a body at rest that meets a partner it does not overlap is given a
    velocity that points towards the partner *)
Lemma pairStep_towards x y :
  velocity x = vec3_zero ->
  Float.ltb Float.zero (mass x) = true -> Float.ltb Float.zero (mass y) = true ->
  overlapping powf x y = false ->
  towards (position x) (position y) (velocity (pairStep powf false x y)).
Proof.
  intros Hv Hmx Hmy Hov. unfold pairStep.
  destruct (Float.gtb (separation x y) Float.zero) eqn:Hs.
  2: { rewrite Hv. repeat split; intros _; by vm_compute. }
  assert (Hdist : signed false (separation x y)) by by apply signed_of_positive.
  assert (Hdm : signed false (Float.mul (separation x y) (Float.of_Z 1000))).
  { apply (SFmul_signed _ _ false false); [done|by vm_compute]. }
  pose proof (magnitude_sign _ (mass x) (mass y) Hdm
                (signed_of_positive _ Hmx) (signed_of_positive _ Hmy)) as Hacc.
  unfold damp, CheckCollision.
  replace (overlapping powf (kick false x y) y) with (overlapping powf x y) by done.
  rewrite Hov. clear Hov Hs Hmx Hmy Hdm.
  destruct x as [px vel ix lx mx dx rx gx bx], y as [py vy0 iy ly my dy ry gy by0].
  cbn [velocity mass] in Hv, Hacc. subst vel.
  lazy beta iota zeta delta [velocity position mass set_velocity kick accelerate acceleration
                             vec3_scale GetPos vx vy vz towards vec3_zero].
  repeat split; apply along_of_sign; intros s Hd;
    exact (component_sign s _ _ _ Hd Hdist Hacc).
Qed.

End TwoBodies.

(** ** Instances *)

Lemma paused_frame_freezes_positions_witness :
  position <$> objs (Run.frame (Float.of_dec 1 60) true (Sample.sim true))
  = position <$> objs (Sample.sim true).
Proof.
  apply (paused_frame_freezes_positions LibM.pow LibM.powf LibM.sin LibM.cos LibM.abs_int
           (Float.of_dec 1 60) true (Sample.sim true)).
  reflexivity.
Defined.

Lemma creating_body_keeps_velocity_witness :
  velocity <$> objs (Run.frame (Float.of_dec 1 60) true (Sample.sim false)) !! 1
  = Some (velocity (Sample.body true 100)).
Proof.
  apply (creating_body_keeps_velocity LibM.pow LibM.powf LibM.sin LibM.cos LibM.abs_int
           (Float.of_dec 1 60) true (Sample.sim false) 1 (Sample.body true 100));
    reflexivity.
Defined.

Lemma running_frame_moves_by_new_velocity_witness :
  exists o',
    objs (Run.frame (Float.of_dec 1 60) false (Sample.apart false)) !! 0 = Some o'
    /\ position o'
       = Vec3 (Float.add (vx (position (Sample.body false 0)))
                         (Float.div (vx (velocity o')) (Float.of_Z 94)))
              (Float.add (vy (position (Sample.body false 0)))
                         (Float.div (vy (velocity o')) (Float.of_Z 94)))
              (Float.add (vz (position (Sample.body false 0)))
                         (Float.div (vz (velocity o')) (Float.of_Z 94))).
Proof.
  apply (running_frame_moves_by_new_velocity LibM.pow LibM.powf LibM.sin LibM.cos
           LibM.abs_int (Float.of_dec 1 60) false (Sample.apart false) 0 (Sample.body false 0));
    reflexivity.
Defined.

Lemma paused_frame_without_overlap_keeps_velocity_witness :
  velocity <$> objs (Run.frame (Float.of_dec 1 60) false (Sample.apart true)) !! 0
  = Some (velocity (Sample.body false 0)).
Proof.
  apply (paused_frame_without_overlap_keeps_velocity LibM.pow LibM.powf LibM.sin LibM.cos
           LibM.abs_int (Float.of_dec 1 60) false (Sample.apart true) 0 (Sample.body false 0));
    try reflexivity.
  intros j o2 Hj Hl _. destruct j as [|[|j]]; [contradiction| |discriminate].
  injection Hl as <-. vm_compute. reflexivity.
Defined.

Lemma displaced_grid_writes_nan_witness :
  Gravity3D.CreateGridVertices (Float.of_Z 2) 1 [Sample.on_vertex] !! 1 = Some S754_nan.
Proof.
  eapply (displaced_grid_writes_nan (Float.of_Z 2) 1 [Sample.on_vertex] 0).
  - vm_compute. reflexivity.
  - vm_compute. reflexivity.
  - vm_compute. reflexivity.
  - apply list_elem_of_here.
  - vm_compute. reflexivity.
Defined.

Lemma key_event_moves_last_creating_body_only_witness :
  exists st',
    keyCallback Run.no_key KEY_UP PRESS false (Sample.sim true) = Some st'
    /\ set_position vec3_zero <$> objs st' = set_position vec3_zero <$> objs (Sample.sim true)
    /\ forall i o, objs (Sample.sim true) !! i = Some o ->
         S i < length (objs (Sample.sim true)) \/ Initalizing o = false ->
         objs st' !! i = Some o.
Proof.
  eexists. split; [vm_compute; reflexivity|].
  apply (key_event_moves_last_creating_body_only Run.no_key KEY_UP PRESS false (Sample.sim true)).
  - vm_compute. reflexivity.
  - simpl. lia.
Defined.

Lemma key_release_changes_no_body_witness :
  exists st',
    keyCallback Run.no_key KEY_UP RELEASE false (Sample.sim true) = Some st'
    /\ objs st' = objs (Sample.sim true).
Proof.
  eexists. split; [vm_compute; reflexivity|].
  apply (key_release_changes_no_body Run.no_key KEY_UP RELEASE false (Sample.sim true)).
  - vm_compute. reflexivity.
  - left. reflexivity.
Defined.

Lemma events_never_fail_after_first_body_witness :
  exists st',
    Run.run [KeyEvent Run.no_key KEY_W PRESS false; MouseEvent MOUSE_BUTTON_LEFT RELEASE;
             Frame (Float.of_dec 1 60) false]
            (main_init LibM.pow LibM.sin LibM.cos) = Some st'
    /\ length (objs (main_init LibM.pow LibM.sin LibM.cos)) <= length (objs st').
Proof.
  apply (events_never_fail_after_first_body LibM.pow LibM.powf LibM.sin LibM.cos LibM.abs_int).
  discriminate.
Defined.

Lemma click_adds_launched_body_witness :
  Run.run [MouseEvent MOUSE_BUTTON_LEFT PRESS; MouseEvent MOUSE_BUTTON_LEFT RELEASE]
          (Sample.sim true)
  = Some (set_objs (objs (Sample.sim true)
                    ++ [set_Launched true (clicked_body LibM.pow LibM.sin LibM.cos)])
                   (Sample.sim true)).
Proof.
  apply (click_adds_launched_body LibM.pow LibM.powf LibM.sin LibM.cos LibM.abs_int
           (Sample.sim true)).
  simpl. lia.
Defined.

Lemma released_body_is_final_witness :
  exists o',
    objs (default (Sample.sim true)
            (Run.run [KeyEvent Run.no_key KEY_UP PRESS false;
                      MouseEvent MOUSE_BUTTON_RIGHT PRESS;
                      MouseEvent MOUSE_BUTTON_LEFT RELEASE] (Sample.sim true))) !! 0 = Some o'
    /\ Initalizing o' = false /\ mass o' = mass (Sample.body false 0)
    /\ density o' = density (Sample.body false 0).
Proof.
  apply (released_body_is_final LibM.pow LibM.powf LibM.sin LibM.cos LibM.abs_int
           [KeyEvent Run.no_key KEY_UP PRESS false; MouseEvent MOUSE_BUTTON_RIGHT PRESS;
            MouseEvent MOUSE_BUTTON_LEFT RELEASE] (Sample.sim true)).
  - simpl. lia.
  - vm_compute. reflexivity.
  - reflexivity.
  - reflexivity.
Defined.

Lemma running_never_resumes_witness :
  running (default (Sample.sim true)
             (Run.run [KeyEvent Run.no_key KEY_K PRESS false;
                       MouseEvent MOUSE_BUTTON_RIGHT PRESS]
                      (set_running false (Sample.sim true)))) = false.
Proof.
  apply (running_never_resumes LibM.pow LibM.powf LibM.sin LibM.cos LibM.abs_int
           [KeyEvent Run.no_key KEY_K PRESS false; MouseEvent MOUSE_BUTTON_RIGHT PRESS]
           (set_running false (Sample.sim true))).
  - reflexivity.
  - vm_compute. reflexivity.
Defined.

Lemma right_click_increases_mass_witness :
  exists st',
    Run.mouseButtonCallback MOUSE_BUTTON_RIGHT PRESS (Sample.sim true) = Some st'
    /\ objs st' = <[pred (length (objs (Sample.sim true)))
                    := set_mass (clicked_mass (mass (Sample.body true 100)))
                                (Sample.body true 100)]> (objs (Sample.sim true))
    /\ Float.ltb (mass (Sample.body true 100)) (clicked_mass (mass (Sample.body true 100)))
       = true
    /\ radius (set_mass (clicked_mass (mass (Sample.body true 100))) (Sample.body true 100))
       = radius (Sample.body true 100)
    /\ vbo (set_mass (clicked_mass (mass (Sample.body true 100))) (Sample.body true 100))
       = vbo (Sample.body true 100).
Proof.
  apply (right_click_increases_mass LibM.pow LibM.sin LibM.cos PRESS (Sample.sim true)
           (Sample.body true 100)).
  - reflexivity.
  - reflexivity.
  - reflexivity.
  - simpl. lia.
  - vm_compute. reflexivity.
Defined.

(** *** Damping, zero separation and two bodies at rest *)




